(** * acccore: the in-memory journal, account and transaction managers

    A shallow embedding of [ManagerInMemoryImpl.go] and of the interfaces it
    works on, followed by the properties of the journal-persistence engine,
    of the account update and of the listing operations. *)

From stdpp Require Import gmap strings list fin_maps sorting.
From Stdlib Require Import ZArith Lia.

Set Default Proof Using "Type".

(** ** Base types *)

(** [time.Time], as an instant on a linear time line. *)
Abbreviation Time := Z (only parsing).

Definition time_Before (t u : Time) : bool := (t <? u)%Z.
Definition time_After (t u : Time) : bool := (u <? t)%Z.

(** [type TransactionType int], with [DEBIT = iota] and [CREDIT] after it.
    Any integer inhabits the type. *)
Abbreviation TransactionType := Z (only parsing).
Definition DEBIT : TransactionType := 0%Z.
Definition CREDIT : TransactionType := 1%Z.

(** [int64] arithmetic: Go wraps around silently. *)
Definition wrap64 (z : Z) : Z := ((z + 2 ^ 63) mod 2 ^ 64 - 2 ^ 63)%Z.
Definition add64 (a b : Z) : Z := wrap64 (a + b).
Definition sub64 (a b : Z) : Z := wrap64 (a - b).
Definition int64_range (z : Z) : Prop := (- 2 ^ 63 <= z < 2 ^ 63)%Z.

(** [len(s) == 0] on a Go string. *)
Definition len0 (s : string) : bool :=
  match s with EmptyString => true | String _ _ => false end.

(** ** The values behind the [Transaction], [Account] and [Journal] interfaces

    Each interface value is represented by what its getters return. *)

Module Tx.
Record Transaction := mk {
  GetTransactionID : string;
  GetTransactionTime : Time;
  GetAccountNumber : string;
  GetJournalID : string;
  GetDescription : string;
  GetTransactionType : TransactionType;
  GetAmount : Z;
  GetAccountBalance : Z;
  GetCreateTime : Time;
  GetCreateBy : string }.
End Tx.
Abbreviation Transaction := Tx.Transaction.

Module Ac.
Record Account := mk {
  GetCurrency : string;
  GetAccountNumber : string;
  GetName : string;
  GetDescription : string;
  GetBaseTransactionType : TransactionType;
  GetBalance : Z;
  GetCOA : string;
  GetCreateTime : Time;
  GetCreateBy : string;
  GetUpdateTime : Time;
  GetUpdateBy : string }.
End Ac.
Abbreviation Account := Ac.Account.

Module Jn.
(** [GetReversedJournal] is [None] for Go's [nil]. *)
#[warnings="-register-all"]
Inductive Journal := mk {
  GetJournalID : string;
  GetJournalingTime : Time;
  GetDescription : string;
  IsReversal : bool;
  GetReversedJournal : option Journal;
  GetAmount : Z;
  GetTransactions : list Transaction;
  GetCreateTime : Time;
  GetCreateBy : string }.
End Jn.
Abbreviation Journal := Jn.Journal.

(** ** RECORD and TABLE simulations *)

Module JRec.
Record InMemoryJournalRecords := mk {
  journalId : string;
  journalingTime : Time;
  description : string;
  reversal : bool;
  reversedJournalId : string;
  amount : Z;
  createTime : Time;
  createBy : string }.
End JRec.
Abbreviation InMemoryJournalRecords := JRec.InMemoryJournalRecords.

Module ARec.
Record InMemoryAccountRecord := mk {
  currency : string;
  id : string;
  name : string;
  description : string;
  baseTransactionType : TransactionType;
  balance : Z;
  coa : string;
  createTime : Time;
  createBy : string;
  updateTime : Time;
  updateBy : string }.
End ARec.
Abbreviation InMemoryAccountRecord := ARec.InMemoryAccountRecord.

Module TRec.
Record InMemoryTransactionRecords := mk {
  transactionId : string;
  transactionTime : Time;
  accountNumber : string;
  journalId : string;
  description : string;
  transactionType : TransactionType;
  amount : Z;
  accountBalance : Z;
  createTime : Time;
  createBy : string }.
End TRec.
Abbreviation InMemoryTransactionRecords := TRec.InMemoryTransactionRecords.

(** The three package-level tables, and the wall clock: the [n]-th call of
    [time.Now()] since the start of the program reads [clock n]. *)
Record World := mkWorld {
  InMemoryJournalTable : gmap string InMemoryJournalRecords;
  InMemoryAccountTable : gmap string InMemoryAccountRecord;
  InMemoryTransactionTable : gmap string InMemoryTransactionRecords;
  clock : nat → Time;
  ticks : nat }.

(** [func init()] *)
Definition init (clk : nat → Time) : World := mkWorld ∅ ∅ ∅ clk 0.

Definition set_journals (f : gmap string InMemoryJournalRecords → gmap string InMemoryJournalRecords)
    (w : World) : World :=
  mkWorld (f (InMemoryJournalTable w)) (InMemoryAccountTable w)
          (InMemoryTransactionTable w) (clock w) (ticks w).
Definition set_accounts (f : gmap string InMemoryAccountRecord → gmap string InMemoryAccountRecord)
    (w : World) : World :=
  mkWorld (InMemoryJournalTable w) (f (InMemoryAccountTable w))
          (InMemoryTransactionTable w) (clock w) (ticks w).
Definition set_transactions
    (f : gmap string InMemoryTransactionRecords → gmap string InMemoryTransactionRecords)
    (w : World) : World :=
  mkWorld (InMemoryJournalTable w) (InMemoryAccountTable w)
          (f (InMemoryTransactionTable w)) (clock w) (ticks w).

(** ** Errors and the monad of the managers *)

Inductive error :=
  | ErrJournalNil
  | ErrJournalMissingId
  | ErrJournalNoTransaction
  | ErrJournalMissingAuthor
  | ErrJournalAlreadyPersisted
  | ErrJournalTransactionMissingID
  | ErrJournalTransactionAlreadyPersisted
  | ErrJournalNotBalance
  | ErrJournalTransactionAccountDuplicate
  | ErrJournalTransactionAccountNotPersist
  | ErrJournalTransactionMixCurrency
  | ErrJournalCanNotDoubleReverse
  | ErrJournalIdNotFound
  | ErrJournalLoadReversalInconsistent
  | ErrAccountMissingID
  | ErrAccountMissingName
  | ErrAccountMissingDescription
  | ErrAccountMissingCreator
  | ErrAccountAlreadyPersisted
  | ErrAccountIsNotPersisted
  | ErrAccountIdNotFound
  | ErrTransactionNotFound.

(** A call runs on the world and either panics ([None]), returns a non-nil
    [error] ([inl]) or returns normally ([inr]); in the last two cases the
    world is the one the call leaves behind. *)
Definition M (A : Type) : Type := World → option ((error + A) * World).

Definition ret {A} (a : A) : M A := λ w, Some (inr a, w).
Definition throw {A} (e : error) : M A := λ w, Some (inl e, w).
Definition panic {A} : M A := λ _, None.
Definition bind {A B} (c : M A) (k : A → M B) : M B := λ w,
  match c w with
  | None => None
  | Some (inl e, w') => Some (inl e, w')
  | Some (inr a, w') => k a w'
  end.
Definition get : M World := λ w, Some (inr w, w).
Definition modify (f : World → World) : M unit := λ w, Some (inr tt, f w).
Definition time_Now : M Time := λ w,
  Some (inr (clock w (ticks w)),
        mkWorld (InMemoryJournalTable w) (InMemoryAccountTable w)
                (InMemoryTransactionTable w) (clock w) (S (ticks w))).

Notation "'let*' x ':=' c 'in' k" := (bind c (λ x, k))
  (at level 10, x name, c at level 100, k at level 200).
Notation "c '>>>' k" := (bind c (λ _, k))
  (at level 65, right associativity).

(** [if cond { return e }] *)
Definition fail_if (cond : bool) (e : error) : M unit :=
  if cond then throw e else ret tt.

(** [for idx, x := range l { body }] with the locals the body updates
    threaded as [s]; a [return err] in the body leaves the loop. *)
Fixpoint range_fold {A St} (body : nat → A → St → M St) (idx : nat) (l : list A) (s : St) : M St :=
  match l with
  | [] => ret s
  | x :: l' => let* s' := body idx x s in range_fold body (S idx) l' s'
  end.

(** [for _, x := range l { body }] *)
Fixpoint for_each {A} (l : list A) (body : A → M unit) : M unit :=
  match l with
  | [] => ret tt
  | x :: l' => body x >>> for_each l' body
  end.

(** [_, exist := table[k]] *)
Definition exist {V} (table : gmap string V) (k : string) : bool :=
  match table !! k with Some _ => true | None => false end.

(** [table[k].field]: the table holds pointers, and reading a field through
    the nil pointer of a missing key panics. *)
Definition deref {V} (table : gmap string V) (k : string) : M V :=
  match table !! k with Some r => ret r | None => panic end.

(** ** InMemoryJournalManager *)

(** IsJournalIdExist will check if a journal ID is exist in the database. *)
Definition IsJournalIdExist (id : string) : M bool :=
  let* w := get in ret (exist (InMemoryJournalTable w) id).

(** IsJournalIdReversed check if the journal with specified ID has been
    reversed. *)
Definition IsJournalIdReversed (journalId : string) : M bool :=
  let* w := get in
  if exist (InMemoryJournalTable w) journalId then
    ret (existsb (λ kj, String.eqb (JRec.reversedJournalId kj.2) journalId)
                 (map_to_list (InMemoryJournalTable w)))
  else throw ErrJournalIdNotFound.

(** Step 5 of [PersistJournal]: one round of the summing loop, on the pair
    [(creditSum, debitSum)]. *)
Definition sum_step (sums : Z * Z) (trx : Transaction) : Z * Z :=
  let '(creditSum, debitSum) := sums in
  let debitSum :=
    if (Tx.GetTransactionType trx =? DEBIT)%Z then add64 debitSum (Tx.GetAmount trx)
    else debitSum in
  let creditSum :=
    if (Tx.GetTransactionType trx =? CREDIT)%Z then add64 creditSum (Tx.GetAmount trx)
    else creditSum in
  (creditSum, debitSum).

Definition sum_loop (trxs : list Transaction) : Z * Z :=
  fold_left sum_step trxs (0%Z, 0%Z).

(** Step 6 of [PersistJournal]: one round of the duplicate-account loop. *)
Definition dup_step (trx : Transaction) (accountDupCheck : gmap string bool)
    : M (gmap string bool) :=
  if exist accountDupCheck (Tx.GetAccountNumber trx)
  then throw ErrJournalTransactionAccountDuplicate
  else ret (<[Tx.GetAccountNumber trx := true]> accountDupCheck).

(** Step 8 of [PersistJournal]: one round of the currency loop; the local
    [currency] is the state. *)
Definition currency_step (idx : nat) (trx : Transaction) (currency : string) : M string :=
  let* w := get in
  let* r := deref (InMemoryAccountTable w) (Tx.GetAccountNumber trx) in
  let cur := ARec.currency r in
  if Nat.eqb idx 0 then ret cur
  else if negb (String.eqb cur currency) then throw ErrJournalTransactionMixCurrency
  else ret currency.

(** [InMemoryAccountTable[k].field = v] *)
Definition assign_account (k : string) (f : InMemoryAccountRecord → InMemoryAccountRecord)
    : M unit :=
  let* w := get in
  let* r := deref (InMemoryAccountTable w) k in
  modify (set_accounts (insert k (f r))).

Definition with_balance (v : Z) (r : InMemoryAccountRecord) : InMemoryAccountRecord :=
  ARec.mk (ARec.currency r) (ARec.id r) (ARec.name r) (ARec.description r)
          (ARec.baseTransactionType r) v (ARec.coa r) (ARec.createTime r)
          (ARec.createBy r) (ARec.updateTime r) (ARec.updateBy r).
Definition with_updateTime (v : Time) (r : InMemoryAccountRecord) : InMemoryAccountRecord :=
  ARec.mk (ARec.currency r) (ARec.id r) (ARec.name r) (ARec.description r)
          (ARec.baseTransactionType r) (ARec.balance r) (ARec.coa r) (ARec.createTime r)
          (ARec.createBy r) v (ARec.updateBy r).
Definition with_updateBy (v : string) (r : InMemoryAccountRecord) : InMemoryAccountRecord :=
  ARec.mk (ARec.currency r) (ARec.id r) (ARec.name r) (ARec.description r)
          (ARec.baseTransactionType r) (ARec.balance r) (ARec.coa r) (ARec.createTime r)
          (ARec.createBy r) (ARec.updateTime r) v.

(** The balance propagation of the write loop. *)
Definition newBalance (transactionType accountTrxType : TransactionType) (balance amount : Z) : Z :=
  if (transactionType =? accountTrxType)%Z then add64 balance amount
  else sub64 balance amount.

(** "2 Save the Transactions": the body of the write loop. *)
Definition save_transaction (journalId : string) (trx : Transaction) : M unit :=
  let* transactionTime := time_Now in
  let* createTime := time_Now in
  let* w := get in
  let* acc := deref (InMemoryAccountTable w) (Tx.GetAccountNumber trx) in
  let nb := newBalance (Tx.GetTransactionType trx) (ARec.baseTransactionType acc)
                       (ARec.balance acc) (Tx.GetAmount trx) in
  let transactionToInsert :=
    TRec.mk (Tx.GetTransactionID trx) transactionTime (Tx.GetAccountNumber trx)
            journalId (Tx.GetDescription trx) (Tx.GetTransactionType trx)
            (Tx.GetAmount trx) nb createTime (Tx.GetCreateBy trx) in
  modify (set_transactions (insert (TRec.transactionId transactionToInsert) transactionToInsert)) >>>
  assign_account (Tx.GetAccountNumber trx) (with_balance nb) >>>
  let* updateTime := time_Now in
  assign_account (Tx.GetAccountNumber trx) (with_updateTime updateTime) >>>
  assign_account (Tx.GetAccountNumber trx) (with_updateBy (Tx.GetCreateBy trx)).

(** PersistJournal will record a journal entry into database. The argument
    is [None] for a nil journal. *)
Definition PersistJournal (journalToPersist : option Journal) : M unit :=
  match journalToPersist with
  | None => throw ErrJournalNil
  | Some j =>
    (* 1. Checking if the mandatories is not missing *)
    fail_if (len0 (Jn.GetJournalID j)) ErrJournalMissingId >>>
    fail_if (Nat.eqb (length (Jn.GetTransactions j)) 0) ErrJournalNoTransaction >>>
    fail_if (len0 (Jn.GetCreateBy j)) ErrJournalMissingAuthor >>>
    (* 2. the journal ID must not be in the database *)
    let* w := get in
    fail_if (exist (InMemoryJournalTable w) (Jn.GetJournalID j)) ErrJournalAlreadyPersisted >>>
    (* 3. all journal transactions are IDed *)
    for_each (Jn.GetTransactions j) (λ trx,
      fail_if (len0 (Tx.GetTransactionID trx)) ErrJournalTransactionMissingID) >>>
    (* 4. all journal transactions are not persisted *)
    for_each (Jn.GetTransactions j) (λ trx,
      let* w := get in
      fail_if (exist (InMemoryTransactionTable w) (Tx.GetTransactionID trx))
              ErrJournalTransactionAlreadyPersisted) >>>
    (* 5. transactions are balanced *)
    let '(creditSum, debitSum) := sum_loop (Jn.GetTransactions j) in
    fail_if (negb (creditSum =? debitSum)%Z) ErrJournalNotBalance >>>
    (* 6. accounts do not appear twice in the journal *)
    range_fold (λ _, dup_step) 0 (Jn.GetTransactions j) ∅ >>>
    (* 7. transactions all belong to existing accounts *)
    for_each (Jn.GetTransactions j) (λ trx,
      let* w := get in
      fail_if (negb (exist (InMemoryAccountTable w) (Tx.GetAccountNumber trx)))
              ErrJournalTransactionAccountNotPersist) >>>
    (* 8. transactions all have the same currency *)
    range_fold currency_step 0 (Jn.GetTransactions j) EmptyString >>>
    (* 9. a reversal journal: the journal being reversed has not been
          reversed before *)
    match Jn.GetReversedJournal j with
    | Some _ =>
      let* reversed := IsJournalIdReversed (Jn.GetJournalID j) in
      fail_if reversed ErrJournalCanNotDoubleReverse
    | None => ret tt
    end >>>
    (* 1. Save the Journal *)
    let* journalingTime := time_Now in
    let* createTime := time_Now in
    let journalToInsert :=
      match Jn.GetReversedJournal j with
      | Some rj =>
        JRec.mk (Jn.GetJournalID j) journalingTime (Jn.GetDescription j) true
                (Jn.GetJournalID rj) creditSum createTime (Jn.GetCreateBy j)
      | None =>
        JRec.mk (Jn.GetJournalID j) journalingTime (Jn.GetDescription j) false
                EmptyString creditSum createTime (Jn.GetCreateBy j)
      end in
    modify (set_journals (insert (JRec.journalId journalToInsert) journalToInsert)) >>>
    (* 2 Save the Transactions *)
    for_each (Jn.GetTransactions j) (save_transaction (JRec.journalId journalToInsert))
  end.

(** CommitJournal and CancelJournal simply return nil. *)
Definition CommitJournal (journalToCommit : option Journal) : M unit := ret tt.
Definition CancelJournal (journalToCancel : option Journal) : M unit := ret tt.

(** ** Slices, sorting and pagination *)

(** [sort.SliceStable(l, less)]: a stable sort, here by insertion. An
    element goes in front of the first element that is not strictly less
    than it, so equal elements keep their order. *)
Fixpoint stable_insert {A} (less : A → A → bool) (x : A) (l : list A) : list A :=
  match l with
  | [] => [x]
  | y :: l' => if less y x then y :: stable_insert less x l' else x :: y :: l'
  end.

Definition SliceStable {A} (less : A → A → bool) (l : list A) : list A :=
  foldr (stable_insert less) [] l.

(** [make([]T, n)] panics on a negative length. *)
Definition make_check (n : Z) : M unit :=
  if (n <? 0)%Z then panic else ret tt.

(** [for _, r := range l[lo:hi]] on a slice of pointers to records: the slice
    expression panics out of bounds. A bound beyond the length cannot be
    used either: it panics beyond the capacity, and below it the spare
    entries are nil pointers whose fields cannot be read. *)
Definition slice {A} (l : list A) (lo hi : Z) : M (list A) :=
  if ((0 <=? lo) && (lo <=? hi) && (hi <=? Z.of_nat (length l)))%Z
  then ret (take (Z.to_nat (hi - lo)) (drop (Z.to_nat lo) l))
  else panic.

(** A page request: zero-based page index and page size. *)
Record PageRequest := mkPageRequest {
  PageNo : Z;
  ItemSize : Z }.

Record PageResult := mkPageResult {
  Request : PageRequest;
  TotalEntries : Z;
  TotalPages : Z;
  Page : Z;
  PageSize : Z;
  Offset : Z }.

(** Modelled from the spec: [PageResultFor], the pagination helper the
    listing functions call, is not part of the files at hand. The spec
    gives a zero-based page index and a page size, total-count and
    total-pages metadata, a window clamped to the remaining items and an
    empty window for a page beyond the last one. *)
Definition PageResultFor (request : PageRequest) (count : Z) : PageResult :=
  let offset := Z.min (PageNo request * ItemSize request) count in
  mkPageResult request count
    ((count + ItemSize request - 1) / ItemSize request)
    (PageNo request)
    (Z.min (ItemSize request) (count - offset))
    offset.

(** [for _, r := range table]: the records of a table. Go leaves the
    order of a map iteration unspecified; the model fixes one. *)
Definition range_table {V} (table : gmap string V) : list V :=
  (map_to_list table).*2.

(** ** InMemoryJournalManager, queries *)

(** NewJournal will create new blank un-persisted journal *)
Definition NewJournal : Journal :=
  Jn.mk EmptyString 0%Z EmptyString false None 0%Z [] 0%Z EmptyString.

Definition transaction_of_record (trx : InMemoryTransactionRecords) : Transaction :=
  Tx.mk (TRec.transactionId trx) (TRec.transactionTime trx) (TRec.accountNumber trx)
        (TRec.journalId trx) (TRec.description trx) (TRec.transactionType trx)
        (TRec.amount trx) (TRec.accountBalance trx) (TRec.createTime trx)
        (TRec.createBy trx).

(** [reversed, err := jm.GetJournalById(..); if err != nil { return nil,
    ErrJournalLoadReversalInconsistent }] *)
Definition or_else_error {A} (c : M A) (e : error) : M A := λ w,
  match c w with
  | Some (inl _, w') => Some (inl e, w')
  | r => r
  end.

(** GetJournalById retrieved a Journal information identified by its ID.
    It calls itself on the journal a reversal reverses; [fuel] bounds the
    depth of these calls, and running out of it is the overflowing stack of
    a chain of reversals that never ends. *)
Fixpoint GetJournalById (fuel : nat) (journalId : string) : M Journal :=
  match fuel with
  | O => panic
  | S fuel' =>
    let* w := get in
    match InMemoryJournalTable w !! journalId with
    | None => throw ErrJournalIdNotFound
    | Some journalRecord =>
      let* reversedJournal :=
        if JRec.reversal journalRecord then
          let* reversed :=
            or_else_error (GetJournalById fuel' (JRec.reversedJournalId journalRecord))
                          ErrJournalLoadReversalInconsistent in
          ret (Some reversed)
        else ret None in
      (* Populate all transactions from DB. *)
      let* w := get in
      let transactions :=
        transaction_of_record <$>
          filter (λ trx, TRec.journalId trx = JRec.journalId journalRecord)
                 (range_table (InMemoryTransactionTable w)) in
      ret (Jn.mk (JRec.journalId journalRecord) (JRec.journalingTime journalRecord)
                 (JRec.description journalRecord) (JRec.reversal journalRecord)
                 reversedJournal (JRec.amount journalRecord) transactions
                 (JRec.createTime journalRecord) (JRec.createBy journalRecord))
    end
  end.

(** [for i, x := range l { y, err := f(x); if err != nil { return err };
    out[i] = y }] *)
Fixpoint collect {A B} (f : A → M B) (l : list A) : M (list B) :=
  match l with
  | [] => ret []
  | x :: l' => let* y := f x in let* ys := collect f l' in ret (y :: ys)
  end.

(** ListJournals retrieve list of journals with transaction date between the
    [from] and [until] time range. This function uses pagination. *)
Definition ListJournals (fuel : nat) (from until : Time) (request : PageRequest)
    : M (PageResult * list Journal) :=
  let* w := get in
  let allResult :=
    filter (λ j, time_After (JRec.journalingTime j) from
                 && time_Before (JRec.journalingTime j) until)
           (range_table (InMemoryJournalTable w)) in
  let count := Z.of_nat (length allResult) in
  let pageResult := PageResultFor request count in
  let allResult :=
    SliceStable (λ a b, time_Before (JRec.journalingTime a) (JRec.journalingTime b))
                allResult in
  make_check (PageSize pageResult) >>>
  let* window := slice allResult (Offset pageResult)
                       (Offset pageResult + PageSize pageResult) in
  let* journals := collect (λ r, GetJournalById fuel (JRec.journalId r)) window in
  ret (pageResult, journals).

(** GetTotalDebit returns sum of all transaction in the DEBIT alignment *)
Definition GetTotalDebit (journal : Journal) : Z :=
  fold_left (λ total t,
    if (Tx.GetTransactionType t =? DEBIT)%Z then add64 total (Tx.GetAmount t) else total)
    (Jn.GetTransactions journal) 0%Z.

(** GetTotalCredit returns sum of all transaction in the CREDIT alignment *)
Definition GetTotalCredit (journal : Journal) : Z :=
  fold_left (λ total t,
    if (Tx.GetTransactionType t =? CREDIT)%Z then add64 total (Tx.GetAmount t) else total)
    (Jn.GetTransactions journal) 0%Z.

(** ** InMemoryAccountManager *)

(** NewAccount will create a new blank un-persisted account. *)
Definition NewAccount : Account :=
  Ac.mk EmptyString EmptyString EmptyString EmptyString 0%Z 0%Z EmptyString 0%Z
        EmptyString 0%Z EmptyString.

(** IsAccountIdExist will check if an account ID/number is exist in the
    database. *)
Definition IsAccountIdExist (id : string) : M bool :=
  let* w := get in ret (exist (InMemoryAccountTable w) id).

(** The record [PersistAccount] and [UpdateAccount] both build. *)
Definition account_record (a : Account) (createTime updateTime : Time)
    : InMemoryAccountRecord :=
  ARec.mk (Ac.GetCurrency a) (Ac.GetAccountNumber a) (Ac.GetName a)
          (Ac.GetDescription a) (Ac.GetBaseTransactionType a) (Ac.GetBalance a)
          (Ac.GetCOA a) createTime (Ac.GetCreateBy a) updateTime (Ac.GetUpdateBy a).

(** PersistAccount will save the account into database. will throw error if
    the account already persisted *)
Definition PersistAccount (AccountToPersist : Account) : M unit :=
  fail_if (len0 (Ac.GetAccountNumber AccountToPersist)) ErrAccountMissingID >>>
  fail_if (len0 (Ac.GetName AccountToPersist)) ErrAccountMissingName >>>
  fail_if (len0 (Ac.GetDescription AccountToPersist)) ErrAccountMissingDescription >>>
  fail_if (len0 (Ac.GetCreateBy AccountToPersist)) ErrAccountMissingCreator >>>
  let* exist := IsAccountIdExist (Ac.GetAccountNumber AccountToPersist) in
  fail_if exist ErrAccountAlreadyPersisted >>>
  let* createTime := time_Now in
  let* updateTime := time_Now in
  let accountRecord := account_record AccountToPersist createTime updateTime in
  modify (set_accounts (insert (ARec.id accountRecord) accountRecord)).

(** UpdateAccount will update the account database to reflect to the
    provided account information. This update account function will fail if
    the account ID/number is not existing in the database. *)
Definition UpdateAccount (AccountToUpdate : Account) : M unit :=
  fail_if (len0 (Ac.GetAccountNumber AccountToUpdate)) ErrAccountMissingID >>>
  fail_if (len0 (Ac.GetName AccountToUpdate)) ErrAccountMissingName >>>
  fail_if (len0 (Ac.GetDescription AccountToUpdate)) ErrAccountMissingDescription >>>
  fail_if (len0 (Ac.GetCreateBy AccountToUpdate)) ErrAccountMissingCreator >>>
  let* exist := IsAccountIdExist (Ac.GetAccountNumber AccountToUpdate) in
  fail_if (negb exist) ErrAccountIsNotPersisted >>>
  let* createTime := time_Now in
  let* updateTime := time_Now in
  let accountRecord := account_record AccountToUpdate createTime updateTime in
  modify (set_accounts (insert (ARec.id accountRecord) accountRecord)).

Definition account_of_record (s : InMemoryAccountRecord) : Account :=
  Ac.mk (ARec.currency s) (ARec.id s) (ARec.name s) (ARec.description s)
        (ARec.baseTransactionType s) (ARec.balance s) (ARec.coa s)
        (ARec.createTime s) (ARec.createBy s) (ARec.updateTime s) (ARec.updateBy s).

(** GetAccountById retrieve an account information by specifying the
    ID/number *)
Definition GetAccountById (id : string) : M Account :=
  let* w := get in
  match InMemoryAccountTable w !! id with
  | None => throw ErrAccountIdNotFound
  | Some accountRecord => ret (account_of_record accountRecord)
  end.

(** The part [ListAccounts], [ListAccountByCOA] and [FindAccounts] share:
    sort the selected records by creation time, cut the page out. *)
Definition list_accounts_page (resultSlice : list InMemoryAccountRecord)
    (request : PageRequest) : M (PageResult * list Account) :=
  let resultSlice :=
    SliceStable (λ a b, time_Before (ARec.createTime a) (ARec.createTime b))
                resultSlice in
  let pageResult := PageResultFor request (Z.of_nat (length resultSlice)) in
  make_check (PageSize pageResult) >>>
  let* window := slice resultSlice (Offset pageResult)
                       (Offset pageResult + PageSize pageResult) in
  ret (pageResult, account_of_record <$> window).

(** ListAccounts list all account in the database. This function uses
    pagination *)
Definition ListAccounts (request : PageRequest) : M (PageResult * list Account) :=
  let* w := get in
  list_accounts_page (range_table (InMemoryAccountTable w)) request.

(** ListAccountByCOA returns list of accounts that have the same COA
    number. *)
Definition ListAccountByCOA (coa : string) (request : PageRequest)
    : M (PageResult * list Account) :=
  let* w := get in
  list_accounts_page
    (filter (λ r, ARec.coa r = coa) (range_table (InMemoryAccountTable w))) request.

(** [strings.Contains(s, substr)] *)
Fixpoint strings_Contains (s substr : string) : bool :=
  if String.prefix substr s then true
  else match s with
       | EmptyString => false
       | String _ s' => strings_Contains s' substr
       end.

(** FindAccounts returns list of accounts that have their name contains a
    substring of specified parameter, case insensitive. The case mapping
    [strings.ToUpper] of the Go library is an argument. *)
Definition FindAccounts (strings_ToUpper : string → string) (nameLike : string)
    (request : PageRequest) : M (PageResult * list Account) :=
  let* w := get in
  list_accounts_page
    (filter (λ r, strings_Contains (strings_ToUpper (ARec.name r))
                                   (strings_ToUpper nameLike))
            (range_table (InMemoryAccountTable w))) request.

(** ** InMemoryTransactionManager *)

(** NewTransaction will create new blank un-persisted Transaction *)
Definition NewTransaction : Transaction :=
  Tx.mk EmptyString 0%Z EmptyString EmptyString EmptyString 0%Z 0%Z 0%Z 0%Z
        EmptyString.

(** IsTransactionIdExist will check if an Transaction ID/number is exist in
    the database. *)
Definition IsTransactionIdExist (id : string) : M bool :=
  let* w := get in ret (exist (InMemoryTransactionTable w) id).

(** GetTransactionById will retrieve one single transaction that identified
    by some ID *)
Definition GetTransactionById (id : string) : M Transaction :=
  let* w := get in
  match InMemoryTransactionTable w !! id with
  | None => throw ErrTransactionNotFound
  | Some trx => ret (transaction_of_record trx)
  end.

(** ListTransactionsOnAccount: the body reads neither [from] nor [until],
    and copies every record it selected into the result. *)
Definition ListTransactionsOnAccount (from until : Time) (account : Account)
    (request : PageRequest) : M (PageResult * list Transaction) :=
  let* w := get in
  let resultRecord :=
    filter (λ trx, TRec.accountNumber trx = Ac.GetAccountNumber account)
           (range_table (InMemoryTransactionTable w)) in
  let resultRecord :=
    SliceStable (λ a b, time_Before (TRec.createTime a) (TRec.createTime b))
                resultRecord in
  let pageResult := PageResultFor request (Z.of_nat (length resultRecord)) in
  ret (pageResult, transaction_of_record <$> resultRecord).

(** ** The operations of the three managers as one step function *)

Inductive Op :=
  | OpPersistJournal (journalToPersist : option Journal)
  | OpCommitJournal (journalToCommit : option Journal)
  | OpCancelJournal (journalToCancel : option Journal)
  | OpIsJournalIdExist (id : string)
  | OpGetJournalById (fuel : nat) (journalId : string)
  | OpListJournals (fuel : nat) (from until : Time) (request : PageRequest)
  | OpIsJournalIdReversed (journalId : string)
  | OpPersistAccount (AccountToPersist : Account)
  | OpUpdateAccount (AccountToUpdate : Account)
  | OpIsAccountIdExist (id : string)
  | OpGetAccountById (id : string)
  | OpListAccounts (request : PageRequest)
  | OpListAccountByCOA (coa : string) (request : PageRequest)
  | OpFindAccounts (strings_ToUpper : string → string) (nameLike : string)
                   (request : PageRequest)
  | OpIsTransactionIdExist (id : string)
  | OpGetTransactionById (id : string)
  | OpListTransactionsOnAccount (from until : Time) (account : Account)
                                (request : PageRequest).

(** What a call returns is dropped: [run] keeps whether it panicked,
    returned an error or returned normally, and the world it leaves. *)
Definition forget {A} (c : M A) : M unit := let* _ := c in ret tt.

Definition run (op : Op) : M unit :=
  match op with
  | OpPersistJournal j => PersistJournal j
  | OpCommitJournal j => CommitJournal j
  | OpCancelJournal j => CancelJournal j
  | OpIsJournalIdExist id => forget (IsJournalIdExist id)
  | OpGetJournalById fuel id => forget (GetJournalById fuel id)
  | OpListJournals fuel from until request => forget (ListJournals fuel from until request)
  | OpIsJournalIdReversed id => forget (IsJournalIdReversed id)
  | OpPersistAccount a => PersistAccount a
  | OpUpdateAccount a => UpdateAccount a
  | OpIsAccountIdExist id => forget (IsAccountIdExist id)
  | OpGetAccountById id => forget (GetAccountById id)
  | OpListAccounts request => forget (ListAccounts request)
  | OpListAccountByCOA coa request => forget (ListAccountByCOA coa request)
  | OpFindAccounts up nameLike request => forget (FindAccounts up nameLike request)
  | OpIsTransactionIdExist id => forget (IsTransactionIdExist id)
  | OpGetTransactionById id => forget (GetTransactionById id)
  | OpListTransactionsOnAccount from until account request =>
      forget (ListTransactionsOnAccount from until account request)
  end.

(** [RenderJournal] and [RenderTransactionsOnAccount] lay out the values of
    the queries above as text, the second one those of
    [ListTransactionsOnAccount]; they are left out. *)

(** The worlds the program can be in: from [init], by calls that return. *)
Inductive reachable : World → Prop :=
  | reachable_init clk : reachable (init clk)
  | reachable_step w op r w' :
      reachable w → run op w = Some (r, w') → reachable w'.

(** * Notions the properties are stated with *)

(** A call that leaves the world as it found it. *)
Definition readonly {A} (c : M A) : Prop :=
  ∀ w r w', c w = Some (r, w') → w' = w.

(** A call that has no [return err]. *)
Definition no_throw {A} (c : M A) : Prop :=
  ∀ w e w', c w ≠ Some (inl e, w').

(** A call that has written nothing when it returns an error. *)
Definition fail_closed {A} (c : M A) : Prop :=
  ∀ w e w', c w = Some (inl e, w') → w' = w.

(** The write phase of [PersistJournal], as it stands after the nine
    checks. *)
Definition write_phase (j : Journal) (creditSum : Z) : M unit :=
  let* journalingTime := time_Now in
  let* createTime := time_Now in
  let journalToInsert :=
    match Jn.GetReversedJournal j with
    | Some rj =>
      JRec.mk (Jn.GetJournalID j) journalingTime (Jn.GetDescription j) true
              (Jn.GetJournalID rj) creditSum createTime (Jn.GetCreateBy j)
    | None =>
      JRec.mk (Jn.GetJournalID j) journalingTime (Jn.GetDescription j) false
              EmptyString creditSum createTime (Jn.GetCreateBy j)
    end in
  modify (set_journals (insert (JRec.journalId journalToInsert) journalToInsert)) >>>
  for_each (Jn.GetTransactions j) (save_transaction (JRec.journalId journalToInsert)).

(** The transaction record the write loop inserts for [trx], posted on the
    account record [acc]. *)
Definition saved_transaction (journalId : string) (trx : Transaction)
    (acc : InMemoryAccountRecord) (transactionTime createTime : Time)
    : InMemoryTransactionRecords :=
  TRec.mk (Tx.GetTransactionID trx) transactionTime (Tx.GetAccountNumber trx)
          journalId (Tx.GetDescription trx) (Tx.GetTransactionType trx)
          (Tx.GetAmount trx)
          (newBalance (Tx.GetTransactionType trx) (ARec.baseTransactionType acc)
                      (ARec.balance acc) (Tx.GetAmount trx))
          createTime (Tx.GetCreateBy trx).

(** The account record the write loop leaves for the account of [trx]. *)
Definition saved_account (trx : Transaction) (acc : InMemoryAccountRecord)
    (updateTime : Time) : InMemoryAccountRecord :=
  ARec.mk (ARec.currency acc) (ARec.id acc) (ARec.name acc) (ARec.description acc)
          (ARec.baseTransactionType acc)
          (newBalance (Tx.GetTransactionType trx) (ARec.baseTransactionType acc)
                      (ARec.balance acc) (Tx.GetAmount trx))
          (ARec.coa acc) (ARec.createTime acc) (ARec.createBy acc)
          updateTime (Tx.GetCreateBy trx).

(** What the duplicate-account loop answers, on the accounts seen so far. *)
Fixpoint dup_in (accountDupCheck : gmap string bool) (l : list Transaction) : bool :=
  match l with
  | [] => false
  | trx :: l' =>
    exist accountDupCheck (Tx.GetAccountNumber trx)
    || dup_in (<[Tx.GetAccountNumber trx := true]> accountDupCheck) l'
  end.

(** What the currency loop answers, from round [idx] on. *)
Fixpoint mix_in (accounts : gmap string InMemoryAccountRecord) (idx : nat)
    (currency : string) (l : list Transaction) : bool :=
  match l with
  | [] => false
  | trx :: l' =>
    match accounts !! Tx.GetAccountNumber trx with
    | None => false
    | Some r =>
      if Nat.eqb idx 0 then mix_in accounts (S idx) (ARec.currency r) l'
      else negb (String.eqb (ARec.currency r) currency)
           || mix_in accounts (S idx) currency l'
    end
  end.

(** The error of the first check that fails, [None] when all nine pass. *)
Definition validate (j : Journal) (w : World) : option error :=
  let trxs := Jn.GetTransactions j in
  if len0 (Jn.GetJournalID j) then Some ErrJournalMissingId
  else if Nat.eqb (length trxs) 0 then Some ErrJournalNoTransaction
  else if len0 (Jn.GetCreateBy j) then Some ErrJournalMissingAuthor
  else if exist (InMemoryJournalTable w) (Jn.GetJournalID j)
  then Some ErrJournalAlreadyPersisted
  else if existsb (λ trx, len0 (Tx.GetTransactionID trx)) trxs
  then Some ErrJournalTransactionMissingID
  else if existsb (λ trx, exist (InMemoryTransactionTable w) (Tx.GetTransactionID trx)) trxs
  then Some ErrJournalTransactionAlreadyPersisted
  else if negb ((sum_loop trxs).1 =? (sum_loop trxs).2)%Z then Some ErrJournalNotBalance
  else if dup_in ∅ trxs then Some ErrJournalTransactionAccountDuplicate
  else if existsb (λ trx, negb (exist (InMemoryAccountTable w) (Tx.GetAccountNumber trx))) trxs
  then Some ErrJournalTransactionAccountNotPersist
  else if mix_in (InMemoryAccountTable w) 0 EmptyString trxs
  then Some ErrJournalTransactionMixCurrency
  else match Jn.GetReversedJournal j with
       | Some _ => Some ErrJournalIdNotFound
       | None => None
       end.

(** What the journal satisfies when all nine checks pass. *)
Record validated (j : Journal) (w : World) : Prop := {
  validated_id : Jn.GetJournalID j ≠ EmptyString;
  validated_transactions : Jn.GetTransactions j ≠ [];
  validated_author : Jn.GetCreateBy j ≠ EmptyString;
  validated_fresh : InMemoryJournalTable w !! Jn.GetJournalID j = None;
  validated_trx_id :
    ∀ trx, trx ∈ Jn.GetTransactions j → Tx.GetTransactionID trx ≠ EmptyString;
  validated_trx_fresh :
    ∀ trx, trx ∈ Jn.GetTransactions j →
           InMemoryTransactionTable w !! Tx.GetTransactionID trx = None;
  validated_balance :
    (sum_loop (Jn.GetTransactions j)).1 = (sum_loop (Jn.GetTransactions j)).2;
  validated_accounts_once : NoDup (Tx.GetAccountNumber <$> Jn.GetTransactions j);
  validated_accounts :
    ∀ trx, trx ∈ Jn.GetTransactions j →
           is_Some (InMemoryAccountTable w !! Tx.GetAccountNumber trx);
  validated_not_reversal : Jn.GetReversedJournal j = None }.

(** The journal record the write phase inserts. *)
Definition saved_journal (j : Journal) (creditSum : Z) (journalingTime createTime : Time)
    : InMemoryJournalRecords :=
  JRec.mk (Jn.GetJournalID j) journalingTime (Jn.GetDescription j)
          (if Jn.GetReversedJournal j is Some _ then true else false)
          (if Jn.GetReversedJournal j is Some rj then Jn.GetJournalID rj else EmptyString)
          creditSum createTime (Jn.GetCreateBy j).

(** The spec's rule, over the integers: [bal + amount] if the direction of
    the posting is the base direction of the account, [bal - amount]
    otherwise. *)
Definition spec_newBal (d b : TransactionType) (bal amount : Z) : Z :=
  if decide (d = b) then (bal + amount)%Z else (bal - amount)%Z.


(** Every journal record and every transaction record of [w] is in [w'],
    under the same ID and with the same fields. *)
Definition keeps_records (w w' : World) : Prop :=
  (∀ id rec, InMemoryJournalTable w !! id = Some rec →
             InMemoryJournalTable w' !! id = Some rec)
  ∧ (∀ id rec, InMemoryTransactionTable w !! id = Some rec →
               InMemoryTransactionTable w' !! id = Some rec).

(** Every journal record sits under its own ID and is no reversal (none
    gets past check 9). *)
Definition journal_table_wf (w : World) : Prop :=
  ∀ k r, InMemoryJournalTable w !! k = Some r →
         JRec.journalId r = k ∧ JRec.reversal r = false.

(** The journal [GetJournalById] builds from a record that is no
    reversal. *)
Definition journal_view (w : World) (journalRecord : InMemoryJournalRecords) : Journal :=
  Jn.mk (JRec.journalId journalRecord) (JRec.journalingTime journalRecord)
        (JRec.description journalRecord) (JRec.reversal journalRecord) None
        (JRec.amount journalRecord)
        (transaction_of_record <$>
           filter (λ trx, TRec.journalId trx = JRec.journalId journalRecord)
                  (range_table (InMemoryTransactionTable w)))
        (JRec.createTime journalRecord) (JRec.createBy journalRecord).

(** The items of page [PageNo request], of [ItemSize request] items each,
    of the list [l]. *)
Definition page_window {A} (request : PageRequest) (l : list A) : list A :=
  take (Z.to_nat (ItemSize request))
       (drop (Z.to_nat (PageNo request * ItemSize request)) l).

(** What a listing call owes on a page request, [items] being the matching
    items in order and [f] the copy it makes of each: the total number of
    entries, the number of pages of [ItemSize request] entries that hold
    them, the window of the page; the window is all of the remaining items
    when there are fewer of them than the page size, and empty when the
    page lies beyond the last one. *)
Definition page_contract {A B} (request : PageRequest) (items : list A) (f : A → B)
    (pageResult : PageResult) (page : list B) : Prop :=
  let count := Z.of_nat (length items) in
  let skipped := (PageNo request * ItemSize request)%Z in
  TotalEntries pageResult = count
  ∧ ((TotalPages pageResult - 1) * ItemSize request < count
     ≤ TotalPages pageResult * ItemSize request)%Z
  ∧ page = f <$> page_window request items
  ∧ ((0 ≤ count - skipped < ItemSize request)%Z →
     page = f <$> drop (Z.to_nat skipped) items
     ∧ Z.of_nat (length page) = (count - skipped)%Z)
  ∧ ((count ≤ skipped)%Z → page = []).

(** The journals [ListJournals] selects, in the order it gives them. *)
Definition journals_between (from until : Time) (w : World) : list InMemoryJournalRecords :=
  SliceStable (λ a b, time_Before (JRec.journalingTime a) (JRec.journalingTime b))
    (filter (λ j, time_After (JRec.journalingTime j) from
                  && time_Before (JRec.journalingTime j) until)
            (range_table (InMemoryJournalTable w))).

(** The accounts [ListAccounts] selects, in the order it gives them. *)
Definition accounts_by_creation (w : World) : list InMemoryAccountRecord :=
  SliceStable (λ a b, time_Before (ARec.createTime a) (ARec.createTime b))
    (range_table (InMemoryAccountTable w)).

(** The transactions [ListTransactionsOnAccount] selects, in the order it
    gives them. *)
Definition transactions_on (account : Account) (w : World) : list InMemoryTransactionRecords :=
  SliceStable (λ a b, time_Before (TRec.createTime a) (TRec.createTime b))
    (filter (λ trx, TRec.accountNumber trx = Ac.GetAccountNumber account)
            (range_table (InMemoryTransactionTable w))).

(** * A scenario: two accounts, journals on them, a reversal *)

Fixpoint run_all (ops : list Op) (w : World) : option World :=
  match ops with
  | [] => Some w
  | op :: ops' =>
    match run op w with
    | Some (_, w') => run_all ops' w'
    | None => None
    end
  end.

(** The clock whose [n]-th reading is [n]. *)
Definition scenario_clock (n : nat) : Time := Z.of_nat n.

Definition world_after (ops : list Op) : World :=
  default (init scenario_clock) (run_all ops (init scenario_clock)).

(** Account A1 (DEBIT-based, balance 0), A2 (CREDIT-based, balance 0), same
    currency. *)
Definition account_A1 : Account :=
  Ac.mk "IDR" "A1" "Cash" "Cash at hand" DEBIT 0 "1.1" 0 "alice" 0 "alice".
Definition account_A2 : Account :=
  Ac.mk "IDR" "A2" "Loan" "Bank loan" CREDIT 0 "2.1" 0 "alice" 0 "alice".

(** Journal J1 posts DEBIT 100 on A1, CREDIT 100 on A2. *)
Definition journal_J1 : Journal :=
  Jn.mk "J1" 0 "loan received" false None 0
        [ Tx.mk "T1" 0 "A1" "J1" "cash in" DEBIT 100 0 0 "alice";
          Tx.mk "T2" 0 "A2" "J1" "loan" CREDIT 100 0 0 "alice" ]
        0 "alice".

(** Journal J2 (reversal of J1) posts CREDIT 100 on A1, DEBIT 100 on A2. *)
Definition journal_J2 : Journal :=
  Jn.mk "J2" 0 "reversal of J1" true (Some journal_J1) 0
        [ Tx.mk "T3" 0 "A1" "J2" "cash out" CREDIT 100 0 0 "alice";
          Tx.mk "T4" 0 "A2" "J2" "loan back" DEBIT 100 0 0 "alice" ]
        0 "alice".

(** The world with the two accounts, and the one with J1 on top. *)
Definition world_accounts : World :=
  world_after [OpPersistAccount account_A1; OpPersistAccount account_A2].
Definition world_J1 : World :=
  world_after [OpPersistAccount account_A1; OpPersistAccount account_A2;
               OpPersistJournal (Some journal_J1)].

(** The account A1 of the scenario, sent back with a balance of 999. *)
Definition account_A1_edited : Account :=
  Ac.mk "IDR" "A1" "Cash" "Cash at hand" DEBIT 999 "1.1" 0 "alice" 0 "bob".

Definition world_A1_edited : World :=
  world_after [OpPersistAccount account_A1; OpPersistAccount account_A2;
               OpPersistJournal (Some journal_J1); OpUpdateAccount account_A1_edited].

(** Journal J3 posts DEBIT 40 on A1, CREDIT 40 on A2; J4 tries to take the
    transaction ID T1 of J1 again. *)
Definition journal_J3 : Journal :=
  Jn.mk "J3" 0 "second loan" false None 0
        [ Tx.mk "T5" 0 "A1" "J3" "cash in" DEBIT 40 0 0 "alice";
          Tx.mk "T6" 0 "A2" "J3" "loan" CREDIT 40 0 0 "alice" ]
        0 "alice".
Definition journal_J4 : Journal :=
  Jn.mk "J4" 0 "overwrite" false None 0
        [ Tx.mk "T1" 0 "A1" "J4" "cash in" DEBIT 1 0 0 "bob";
          Tx.mk "T7" 0 "A2" "J4" "loan" CREDIT 1 0 0 "bob" ]
        0 "bob".

Definition world_J3 : World :=
  world_after [OpPersistAccount account_A1; OpPersistAccount account_A2;
               OpPersistJournal (Some journal_J1); OpPersistJournal (Some journal_J3)].

(** Journal J5: two transactions of type 7, of 100 on A1 and of 30 on A2. *)
Definition journal_J5 : Journal :=
  Jn.mk "J5" 0 "odd types" false None 0
        [ Tx.mk "T10" 0 "A1" "J5" "odd" 7 100 0 0 "alice";
          Tx.mk "T11" 0 "A2" "J5" "odd" 7 30 0 0 "alice" ]
        0 "alice".

Definition world_J5 : World :=
  world_after [OpPersistAccount account_A1; OpPersistAccount account_A2;
               OpPersistJournal (Some journal_J5)].

(** The value a call returns normally. *)
Definition returned {A} (r : option ((error + A) * World)) : option A :=
  match r with
  | Some (inr a, _) => Some a
  | _ => None
  end.

(** A third account, and journal J6 whose amounts leave the range where
    [int64] sums are exact: DEBIT 2^63 - 1 on A1 and DEBIT 1 on A3, CREDIT
    -2^63 on A2. *)
Definition account_A3 : Account :=
  Ac.mk "IDR" "A3" "Bank" "Cash at bank" DEBIT 0 "1.2" 0 "alice" 0 "alice".
Definition journal_J6 : Journal :=
  Jn.mk "J6" 0 "huge" false None 0
        [ Tx.mk "T12" 0 "A1" "J6" "in" DEBIT (2 ^ 63 - 1) 0 0 "alice";
          Tx.mk "T13" 0 "A3" "J6" "in" DEBIT 1 0 0 "alice";
          Tx.mk "T14" 0 "A2" "J6" "out" CREDIT (- 2 ^ 63) 0 0 "alice" ]
        0 "alice".

Definition world_three_accounts : World :=
  world_after [OpPersistAccount account_A1; OpPersistAccount account_A2;
               OpPersistAccount account_A3].

(** Journal J7, whose two transactions share the ID T20. *)
Definition journal_J7 : Journal :=
  Jn.mk "J7" 0 "twins" false None 0
        [ Tx.mk "T20" 0 "A1" "J7" "in" DEBIT 5 0 0 "alice";
          Tx.mk "T20" 0 "A2" "J7" "out" CREDIT 5 0 0 "alice" ]
        0 "alice".

Definition world_J7 : World :=
  world_after [OpPersistAccount account_A1; OpPersistAccount account_A2;
               OpPersistJournal (Some journal_J7)].

(** * Further notions *)

(** The accounts the transactions of the journal name hold one currency. *)
Definition same_currency (j : Journal) (w : World) : Prop :=
  ∀ trx trx' acc acc',
    trx ∈ Jn.GetTransactions j → trx' ∈ Jn.GetTransactions j →
    InMemoryAccountTable w !! Tx.GetAccountNumber trx = Some acc →
    InMemoryAccountTable w !! Tx.GetAccountNumber trx' = Some acc' →
    ARec.currency acc = ARec.currency acc'.

(** The two account records differ at most in the balance and the two
    update fields. *)
Definition same_account_identity (acc acc' : InMemoryAccountRecord) : Prop :=
  ARec.currency acc' = ARec.currency acc
  ∧ ARec.id acc' = ARec.id acc
  ∧ ARec.name acc' = ARec.name acc
  ∧ ARec.description acc' = ARec.description acc
  ∧ ARec.baseTransactionType acc' = ARec.baseTransactionType acc
  ∧ ARec.coa acc' = ARec.coa acc
  ∧ ARec.createTime acc' = ARec.createTime acc
  ∧ ARec.createBy acc' = ARec.createBy acc.

(** Every record sits under its own ID, which is not empty; no journal
    record is or names a reversal; every transaction record names a journal
    and an account that are in their tables. *)
Definition store_integrity (w : World) : Prop :=
  (∀ k r, InMemoryJournalTable w !! k = Some r →
          JRec.journalId r = k ∧ k ≠ EmptyString
          ∧ JRec.reversal r = false ∧ JRec.reversedJournalId r = EmptyString)
  ∧ (∀ k r, InMemoryAccountTable w !! k = Some r → ARec.id r = k ∧ k ≠ EmptyString)
  ∧ (∀ k r, InMemoryTransactionTable w !! k = Some r →
            TRec.transactionId r = k ∧ k ≠ EmptyString
            ∧ is_Some (InMemoryJournalTable w !! TRec.journalId r)
            ∧ is_Some (InMemoryAccountTable w !! TRec.accountNumber r)).

(** The transaction [t] read back from the store is the transaction [trx]
    of journal [journalId], posted on the account record [acc]: the values
    of the caller, the journal ID and the balance after the posting. *)
Definition read_back (journalId : string) (trx : Transaction)
    (acc : InMemoryAccountRecord) (t : Transaction) : Prop :=
  Tx.GetTransactionID t = Tx.GetTransactionID trx
  ∧ Tx.GetAccountNumber t = Tx.GetAccountNumber trx
  ∧ Tx.GetJournalID t = journalId
  ∧ Tx.GetDescription t = Tx.GetDescription trx
  ∧ Tx.GetTransactionType t = Tx.GetTransactionType trx
  ∧ Tx.GetAmount t = Tx.GetAmount trx
  ∧ Tx.GetCreateBy t = Tx.GetCreateBy trx
  ∧ Tx.GetAccountBalance t
    = wrap64 (spec_newBal (Tx.GetTransactionType trx) (ARec.baseTransactionType acc)
                          (ARec.balance acc) (Tx.GetAmount trx)).

(** A journal table off the paths of the managers: R1 reverses a journal
    that is not there, R2 reverses itself, R3 reverses R4. *)
Definition world_loose_reversals : World :=
  mkWorld (<["R1" := JRec.mk "R1" 1 "dangling" true "R0" 0 1 "alice"]>
           (<["R2" := JRec.mk "R2" 2 "circular" true "R2" 0 2 "alice"]>
            (<["R3" := JRec.mk "R3" 3 "reversal of R4" true "R4" 0 3 "alice"]>
             (<["R4" := JRec.mk "R4" 4 "plain" false EmptyString 0 4 "alice"]> ∅))))
          ∅ ∅ scenario_clock 0.

(** Ascending order of creation time, of journaling time. *)
Definition accounts_ascending (accounts : list Account) : Prop :=
  StronglySorted (λ a b, (Ac.GetCreateTime a ≤ Ac.GetCreateTime b)%Z) accounts.
Definition journals_ascending (journals : list Journal) : Prop :=
  StronglySorted (λ a b, (Jn.GetJournalingTime a ≤ Jn.GetJournalingTime b)%Z) journals.
Definition transactions_ascending (transactions : list Transaction) : Prop :=
  StronglySorted (λ a b, (Tx.GetCreateTime a ≤ Tx.GetCreateTime b)%Z) transactions.

(** The account is a copy of a record of the account table. *)
Definition stored_account (w : World) (a : Account) : Prop :=
  ∃ k r, InMemoryAccountTable w !! k = Some r ∧ a = account_of_record r.

(** The sum over the integers of the amounts of the transactions of one
    type. *)
Definition amounts_of (transactionType : TransactionType) (l : list Transaction) : Z :=
  foldr Z.add 0%Z
    (Tx.GetAmount <$> filter (λ t, Tx.GetTransactionType t = transactionType) l).

(** * Properties *)

(** ** Reasoning on the monad *)

Lemma bind_Some {A B} (c : M A) (k : A → M B) w r w' :
  bind c k w = Some (r, w') ↔
  (∃ e, c w = Some (inl e, w') ∧ r = inl e) ∨
  (∃ a w1, c w = Some (inr a, w1) ∧ k a w1 = Some (r, w')).
Proof.
  unfold bind. destruct (c w) as [[[e|a] w1]|]; split.
  - intros [= <- <-]; left; eauto.
  - intros [(e' & [= -> ->] & ->)|(a & w2 & [=] & _)]; done.
  - intros H; right; eauto.
  - intros [(e' & [=] & _)|(a' & w2 & [= -> ->] & H)]; done.
  - done.
  - intros [(e' & [=] & _)|(a' & w2 & [=] & _)].
Qed.

Lemma bind_inr {A B} (c : M A) (k : A → M B) w b w' :
  bind c k w = Some (inr b, w') →
  ∃ a w1, c w = Some (inr a, w1) ∧ k a w1 = Some (inr b, w').
Proof. intros [(e & _ & [=])|H]%bind_Some; done. Qed.

Lemma readonly_ret {A} (a : A) : readonly (ret a).
Proof. by intros w r w' [= _ ->]. Qed.

Lemma readonly_throw {A} e : readonly (@throw A e).
Proof. by intros w r w' [= _ ->]. Qed.

Lemma readonly_panic {A} : readonly (@panic A).
Proof. by intros w r w' [=]. Qed.

Lemma readonly_get : readonly get.
Proof. by intros w r w' [= _ ->]. Qed.

Lemma readonly_fail_if b e : readonly (fail_if b e).
Proof. destruct b; [apply readonly_throw | apply readonly_ret]. Qed.

Lemma readonly_bind {A B} (c : M A) (k : A → M B) :
  readonly c → (∀ a, readonly (k a)) → readonly (bind c k).
Proof.
  intros Hc Hk w r w' [(e & H & _)|(a & w1 & H1 & H2)]%bind_Some.
  - by apply Hc in H.
  - apply Hc in H1 as ->. by apply Hk in H2.
Qed.

Lemma readonly_deref {V} (table : gmap string V) k : readonly (deref table k).
Proof. unfold deref. destruct (table !! k); [apply readonly_ret | apply readonly_panic]. Qed.

Lemma readonly_make_check n : readonly (make_check n).
Proof. unfold make_check. destruct (n <? 0)%Z; [apply readonly_panic | apply readonly_ret]. Qed.

Lemma readonly_slice {A} (l : list A) lo hi : readonly (slice l lo hi).
Proof. unfold slice. case_match; [apply readonly_ret | apply readonly_panic]. Qed.

Lemma readonly_or_else_error {A} (c : M A) e : readonly c → readonly (or_else_error c e).
Proof.
  intros Hc w r w'. unfold or_else_error.
  destruct (c w) as [[[e'|a] w1]|] eqn:E; intros [= <- <-]; by apply Hc in E.
Qed.

Lemma readonly_for_each {A} (l : list A) (body : A → M unit) :
  (∀ x, readonly (body x)) → readonly (for_each l body).
Proof.
  intros Hb. induction l as [|x l IH]; simpl.
  - apply readonly_ret.
  - apply readonly_bind; auto.
Qed.

Lemma readonly_range_fold {A St} (body : nat → A → St → M St) idx l s :
  (∀ i x s, readonly (body i x s)) → readonly (range_fold body idx l s).
Proof.
  intros Hb. revert idx s. induction l as [|x l IH]; intros idx s; simpl.
  - apply readonly_ret.
  - apply readonly_bind; auto.
Qed.

Lemma readonly_collect {A B} (f : A → M B) l :
  (∀ x, readonly (f x)) → readonly (collect f l).
Proof.
  intros Hf. induction l as [|x l IH]; simpl.
  - apply readonly_ret.
  - apply readonly_bind; [done|]. intros y. apply readonly_bind; [done|].
    intros ys. apply readonly_ret.
Qed.

Lemma readonly_forget {A} (c : M A) : readonly c → readonly (forget c).
Proof. intros Hc. apply readonly_bind; [done|]. intros _. apply readonly_ret. Qed.

Create HintDb readonly.
#[local] Hint Resolve readonly_ret readonly_throw readonly_panic readonly_get
  readonly_fail_if readonly_deref readonly_make_check readonly_slice
  readonly_or_else_error readonly_forget : readonly.

(** Closes [readonly c] for a call made of reads and checks. *)
Ltac readonly_tac :=
  repeat first
    [ progress eauto with readonly
    | apply readonly_bind; [|intros ?]
    | apply readonly_for_each; intros ?
    | apply readonly_range_fold; intros ? ? ?
    | apply readonly_collect; intros ?
    | case_match ].

Lemma fail_closed_readonly {A} (c : M A) : readonly c → fail_closed c.
Proof. intros Hc w e w'. apply Hc. Qed.

Lemma fail_closed_no_throw {A} (c : M A) : no_throw c → fail_closed c.
Proof. intros Hc w e w' H. by apply Hc in H. Qed.

Lemma fail_closed_bind {A B} (c : M A) (k : A → M B) :
  readonly c → (∀ a, fail_closed (k a)) → fail_closed (bind c k).
Proof.
  intros Hc Hk w e w' [(e' & H & _)|(a & w1 & H1 & H2)]%bind_Some.
  - by apply Hc in H.
  - apply Hc in H1 as ->. by apply Hk in H2.
Qed.

Lemma no_throw_ret {A} (a : A) : no_throw (ret a).
Proof. by intros w e w'. Qed.

Lemma no_throw_panic {A} : no_throw (@panic A).
Proof. by intros w e w'. Qed.

Lemma no_throw_get : no_throw get.
Proof. by intros w e w'. Qed.

Lemma no_throw_modify f : no_throw (modify f).
Proof. by intros w e w'. Qed.

Lemma no_throw_time_Now : no_throw time_Now.
Proof. by intros w e w'. Qed.

Lemma no_throw_deref {V} (table : gmap string V) k : no_throw (deref table k).
Proof. unfold deref. destruct (table !! k); [apply no_throw_ret | apply no_throw_panic]. Qed.

Lemma no_throw_bind {A B} (c : M A) (k : A → M B) :
  no_throw c → (∀ a, no_throw (k a)) → no_throw (bind c k).
Proof.
  intros Hc Hk w e w' [(e' & H & _)|(a & w1 & H1 & H2)]%bind_Some.
  - by apply Hc in H.
  - by apply Hk in H2.
Qed.

Lemma no_throw_for_each {A} (l : list A) (body : A → M unit) :
  (∀ x, no_throw (body x)) → no_throw (for_each l body).
Proof.
  intros Hb. induction l as [|x l IH]; simpl.
  - apply no_throw_ret.
  - apply no_throw_bind; auto.
Qed.

Create HintDb no_throw.
#[local] Hint Resolve no_throw_ret no_throw_panic no_throw_get no_throw_modify
  no_throw_time_Now no_throw_deref : no_throw.

Ltac no_throw_tac :=
  repeat first
    [ progress eauto with no_throw
    | apply no_throw_bind; [|intros ?]
    | apply no_throw_for_each; intros ? ].

Lemma no_throw_assign_account k f : no_throw (assign_account k f).
Proof. unfold assign_account. no_throw_tac. Qed.

Lemma no_throw_save_transaction journalId trx : no_throw (save_transaction journalId trx).
Proof.
  unfold save_transaction.
  repeat first [ apply no_throw_assign_account | apply no_throw_bind; [|intros ?]
               | progress eauto with no_throw ].
Qed.

(** ** PersistJournal: the checks read, the writes do not fail *)

Lemma readonly_IsJournalIdReversed journalId : readonly (IsJournalIdReversed journalId).
Proof. unfold IsJournalIdReversed. readonly_tac. Qed.

Lemma readonly_dup_step trx seen : readonly (dup_step trx seen).
Proof. unfold dup_step. readonly_tac. Qed.

Lemma readonly_currency_step idx trx currency : readonly (currency_step idx trx currency).
Proof. unfold currency_step. readonly_tac. Qed.

#[local] Hint Resolve readonly_IsJournalIdReversed readonly_dup_step
  readonly_currency_step : readonly.

Lemma no_throw_write_phase j creditSum : no_throw (write_phase j creditSum).
Proof.
  unfold write_phase.
  repeat first [ apply no_throw_save_transaction | apply no_throw_for_each; intros ?
               | apply no_throw_bind; [|intros ?] | progress eauto with no_throw ].
Qed.

Lemma PersistJournal_fail_closed j : fail_closed (PersistJournal j).
Proof.
  destruct j as [j|]; simpl; [|apply fail_closed_readonly, readonly_throw].
  do 3 (apply fail_closed_bind; [readonly_tac|intros _]).
  apply fail_closed_bind; [readonly_tac|intros w0].
  do 3 (apply fail_closed_bind; [readonly_tac|intros _]).
  destruct (sum_loop _) as [creditSum debitSum].
  do 5 (apply fail_closed_bind; [readonly_tac|intros ?]).
  apply fail_closed_no_throw, no_throw_write_phase.
Qed.

(** C2: whenever [PersistJournal] returns an error, the journal table, the
    transaction table and the account table (every balance with it) are the
    ones it started from; so is the clock, which no failing call has read. *)
Theorem PersistJournal_error_leaves_store_unchanged :
  ∀ (journalToPersist : option Journal) (w w' : World) (e : error),
    PersistJournal journalToPersist w = Some (inl e, w') →
    InMemoryJournalTable w' = InMemoryJournalTable w
    ∧ InMemoryTransactionTable w' = InMemoryTransactionTable w
    ∧ InMemoryAccountTable w' = InMemoryAccountTable w
    ∧ w' = w.
Proof.
  intros j w w' e H. apply PersistJournal_fail_closed in H. by subst.
Qed.

Lemma PersistJournal_error_leaves_store_unchanged_witness :
  PersistJournal (Some journal_J2) world_J1 = Some (inl ErrJournalIdNotFound, world_J1)
  ∧ InMemoryJournalTable world_J1 = InMemoryJournalTable world_J1
  ∧ InMemoryTransactionTable world_J1 = InMemoryTransactionTable world_J1
  ∧ InMemoryAccountTable world_J1 = InMemoryAccountTable world_J1
  ∧ world_J1 = world_J1.
Proof.
  assert (H : PersistJournal (Some journal_J2) world_J1
              = Some (inl ErrJournalIdNotFound, world_J1))
    by (vm_compute; reflexivity).
  split; [exact H|].
  exact (PersistJournal_error_leaves_store_unchanged
           (Some journal_J2) world_J1 world_J1 ErrJournalIdNotFound H).
Defined.
(** ** The write loop, one transaction at a time *)

Lemma save_transaction_eq journalId trx w :
  save_transaction journalId trx w =
  match InMemoryAccountTable w !! Tx.GetAccountNumber trx with
  | None => None
  | Some acc =>
    Some (inr tt,
          mkWorld (InMemoryJournalTable w)
                  (<[Tx.GetAccountNumber trx :=
                       saved_account trx acc (clock w (2 + ticks w))]>
                     (InMemoryAccountTable w))
                  (<[Tx.GetTransactionID trx :=
                       saved_transaction journalId trx acc (clock w (ticks w))
                                         (clock w (1 + ticks w))]>
                     (InMemoryTransactionTable w))
                  (clock w) (3 + ticks w))
  end.
Proof.
  unfold save_transaction, assign_account, bind, time_Now, get, deref, modify,
    set_transactions, set_accounts, ret. simpl.
  destruct (InMemoryAccountTable w !! Tx.GetAccountNumber trx) as [acc|] eqn:E; [|done].
  simpl. rewrite E. simpl.
  repeat (rewrite lookup_insert_eq; simpl).
  by rewrite !insert_insert_eq.
Qed.

Lemma save_loop_spec journalId (l : list Transaction) :
  ∀ w r w',
    for_each l (save_transaction journalId) w = Some (r, w') →
    NoDup (Tx.GetAccountNumber <$> l) →
    r = inr tt
    ∧ InMemoryJournalTable w' = InMemoryJournalTable w
    ∧ clock w' = clock w
    ∧ (∀ k, k ∉ Tx.GetAccountNumber <$> l →
         InMemoryAccountTable w' !! k = InMemoryAccountTable w !! k)
    ∧ (∀ trx, trx ∈ l → ∃ acc t,
         InMemoryAccountTable w !! Tx.GetAccountNumber trx = Some acc
         ∧ InMemoryAccountTable w' !! Tx.GetAccountNumber trx
           = Some (saved_account trx acc t))
    ∧ (∀ id, id ∉ Tx.GetTransactionID <$> l →
         InMemoryTransactionTable w' !! id = InMemoryTransactionTable w !! id)
    ∧ (∀ id, id ∈ Tx.GetTransactionID <$> l → ∃ trx acc t1 t2,
         trx ∈ l ∧ Tx.GetTransactionID trx = id
         ∧ InMemoryAccountTable w !! Tx.GetAccountNumber trx = Some acc
         ∧ InMemoryTransactionTable w' !! id
           = Some (saved_transaction journalId trx acc t1 t2)).
Proof.
  induction l as [|x l IH]; intros w r w' Hrun Hnd.
  - injection Hrun as <- <-. repeat split; try done.
    + intros trx Htrx. by apply elem_of_nil in Htrx.
    + intros id Hid. by apply elem_of_nil in Hid.
  - simpl in Hrun. rewrite fmap_cons in Hnd. apply NoDup_cons in Hnd as [Hx Hnd].
    apply bind_Some in Hrun as [(e & Hs & _)|([] & w1 & Hs & Hrun)];
      rewrite save_transaction_eq in Hs;
      destruct (InMemoryAccountTable w !! Tx.GetAccountNumber x) as [acc0|] eqn:E;
      try done.
    injection Hs as <-.
    destruct (IH _ _ _ Hrun Hnd) as (-> & HJ & Hclk & Hother & Hacc & Tother & HT).
    simpl in *. clear IH Hrun.
    assert (Hback : ∀ trx, trx ∈ l →
      (<[Tx.GetAccountNumber x := saved_account x acc0 (clock w (2 + ticks w))]>
         (InMemoryAccountTable w)) !! Tx.GetAccountNumber trx
      = InMemoryAccountTable w !! Tx.GetAccountNumber trx).
    { intros trx Htrx. apply lookup_insert_ne. intros Heq. apply Hx.
      rewrite Heq. by apply list_elem_of_fmap_2. }
    repeat split; try done.
    + intros k [Hk1 Hk2]%not_elem_of_cons.
      rewrite (Hother _ Hk2). by apply lookup_insert_ne.
    + intros trx [->|Htrx]%elem_of_cons.
      * exists acc0, (clock w (2 + ticks w)). split; [done|].
        rewrite (Hother _ Hx). apply lookup_insert_eq.
      * destruct (Hacc _ Htrx) as (acc & t & H1 & H2).
        exists acc, t. split; [|done]. by rewrite <- (Hback _ Htrx).
    + intros id [Hid1 Hid2]%not_elem_of_cons.
      rewrite (Tother _ Hid2). by apply lookup_insert_ne.
    + intros id Hid.
      destruct (decide (id ∈ Tx.GetTransactionID <$> l)) as [Hin|Hnin].
      * destruct (HT _ Hin) as (trx & acc & t1 & t2 & Htrx & Hidq & H1 & H2).
        exists trx, acc, t1, t2. repeat split; try done.
        -- by apply elem_of_cons; right.
        -- by rewrite <- (Hback _ Htrx).
      * apply elem_of_cons in Hid as [->|Hid]; [|done].
        exists x, acc0, (clock w (ticks w)), (clock w (1 + ticks w)).
        repeat split; try done.
        -- by apply elem_of_cons; left.
        -- rewrite (Tother _ Hnin). apply lookup_insert_eq.
Qed.

Lemma save_loop_returns journalId (l : list Transaction) :
  ∀ w, (∀ trx, trx ∈ l → is_Some (InMemoryAccountTable w !! Tx.GetAccountNumber trx)) →
       ∃ w', for_each l (save_transaction journalId) w = Some (inr tt, w').
Proof.
  induction l as [|x l IH]; intros w Hall; simpl.
  - by exists w.
  - unfold bind. rewrite save_transaction_eq.
    destruct (Hall x) as [acc0 E]; [by apply elem_of_cons; left|]. rewrite E.
    apply IH. intros trx Htrx. simpl.
    destruct (decide (Tx.GetAccountNumber x = Tx.GetAccountNumber trx)) as [->|Hne].
    + rewrite lookup_insert_eq. eauto.
    + rewrite lookup_insert_ne by done. apply Hall. by apply elem_of_cons; right.
Qed.

(** ** The nine checks, as a function of the journal and the world *)

Lemma bind_get {B} (k : World → M B) w : bind get k w = k w w.
Proof. done. Qed.

Lemma bind_check {B} (c : M unit) b e (k : unit → M B) w :
  c w = fail_if b e w →
  bind c k w = if b then Some (inl e, w) else k tt w.
Proof. unfold bind. intros ->. by destruct b. Qed.

Lemma bind_fail_if {B} b e (k : unit → M B) w :
  bind (fail_if b e) k w = if b then Some (inl e, w) else k tt w.
Proof. by apply bind_check. Qed.

Lemma for_each_check {A} (l : list A) (body : A → M unit) (P : A → bool) e w :
  (∀ x, body x w = fail_if (P x) e w) →
  for_each l body w = fail_if (existsb P l) e w.
Proof.
  intros Hb. induction l as [|x l IH]; simpl; [done|].
  rewrite (bind_check _ (P x) e) by done. by destruct (P x).
Qed.

Lemma dup_loop_eq (l : list Transaction) :
  ∀ idx seen w, ∃ s,
    range_fold (λ _, dup_step) idx l seen w =
    if dup_in seen l then Some (inl ErrJournalTransactionAccountDuplicate, w)
    else Some (inr s, w).
Proof.
  induction l as [|x l IH]; intros idx seen w; simpl.
  - by exists seen.
  - unfold bind, dup_step. destruct (exist seen (Tx.GetAccountNumber x)); simpl.
    + by exists seen.
    + apply IH.
Qed.

Lemma dup_in_false (l : list Transaction) :
  ∀ seen, dup_in seen l = false →
    NoDup (Tx.GetAccountNumber <$> l)
    ∧ ∀ a, a ∈ Tx.GetAccountNumber <$> l → seen !! a = None.
Proof.
  induction l as [|x l IH]; intros seen H; simpl in *.
  - split; [constructor|]. intros a Ha. by apply elem_of_nil in Ha.
  - apply orb_false_iff in H as [H1 H2]. apply IH in H2 as [Hnd Hseen].
    unfold exist in H1.
    destruct (seen !! Tx.GetAccountNumber x) eqn:E; [done|].
    split.
    + constructor; [|done]. intros Hin. apply Hseen in Hin.
      by rewrite lookup_insert_eq in Hin.
    + intros a [->|Ha]%elem_of_cons; [done|].
      apply Hseen in Ha. apply lookup_insert_None in Ha. tauto.
Qed.

Lemma currency_loop_eq (l : list Transaction) :
  ∀ idx currency w,
    (∀ trx, trx ∈ l → is_Some (InMemoryAccountTable w !! Tx.GetAccountNumber trx)) →
    ∃ s, range_fold currency_step idx l currency w =
         if mix_in (InMemoryAccountTable w) idx currency l
         then Some (inl ErrJournalTransactionMixCurrency, w)
         else Some (inr s, w).
Proof.
  induction l as [|x l IH]; intros idx currency w Hall; simpl.
  - by exists currency.
  - destruct (Hall x) as [r E]; [by apply elem_of_cons; left|].
    assert (Hl : ∀ trx, trx ∈ l →
              is_Some (InMemoryAccountTable w !! Tx.GetAccountNumber trx)).
    { intros trx Htrx. apply Hall. by apply elem_of_cons; right. }
    unfold bind at 1, currency_step, bind, get, deref. rewrite E. simpl.
    destruct (Nat.eqb idx 0); simpl; [by apply IH|].
    destruct (String.eqb (ARec.currency r) currency); simpl; [by apply IH|].
    by exists currency.
Qed.

Lemma existsb_false {A} (P : A → bool) (l : list A) :
  existsb P l = false ↔ ∀ x, x ∈ l → P x = false.
Proof.
  induction l as [|y l IH]; simpl.
  - split; [|done]. intros _ x Hx. by apply elem_of_nil in Hx.
  - rewrite orb_false_iff, IH. split.
    + intros [H1 H2] x [->|Hx]%elem_of_cons; auto.
    + intros H. split; [|intros x Hx]; apply H; apply elem_of_cons; auto.
Qed.

Lemma PersistJournal_eq j w :
  PersistJournal (Some j) w =
  match validate j w with
  | Some e => Some (inl e, w)
  | None => write_phase j (sum_loop (Jn.GetTransactions j)).1 w
  end.
Proof.
  unfold validate. cbn [PersistJournal].
  rewrite bind_fail_if. destruct (len0 (Jn.GetJournalID j)); [done|].
  rewrite bind_fail_if. destruct (Nat.eqb _ 0); [done|].
  rewrite bind_fail_if. destruct (len0 (Jn.GetCreateBy j)); [done|].
  rewrite bind_get, bind_fail_if.
  destruct (exist (InMemoryJournalTable w) _) eqn:EJ; [done|].
  rewrite (bind_check _ _ _ _ _ (for_each_check _ _ _ _ _ (λ _, eq_refl))).
  destruct (existsb _ _); [done|].
  rewrite (bind_check _ _ _ _ _ (for_each_check _ _ _ _ _ (λ _, eq_refl))).
  destruct (existsb _ _); [done|].
  destruct (sum_loop _) as [creditSum debitSum]. cbn [fst snd].
  rewrite bind_fail_if. destruct (negb _); [done|].
  destruct (dup_loop_eq (Jn.GetTransactions j) 0 ∅ w) as [s Hs].
  unfold bind at 1. rewrite Hs. destruct (dup_in _ _); [done|].
  rewrite (bind_check _ _ _ _ _ (for_each_check _ _ _ _ _ (λ _, eq_refl))).
  destruct (existsb _ _) eqn:EA; [done|].
  destruct (currency_loop_eq (Jn.GetTransactions j) 0 EmptyString w) as [c Hc].
  { intros trx Htrx. eapply existsb_false in EA; [|done]. unfold exist in EA.
    destruct (_ !! _); [eauto|done]. }
  unfold bind at 1. rewrite Hc. destruct (mix_in _ _ _ _); [done|].
  destruct (Jn.GetReversedJournal j) as [rj|] eqn:ER.
  - unfold bind at 1, bind at 1, IsJournalIdReversed, bind, get. simpl.
    by rewrite EJ.
  - unfold write_phase. by rewrite ER.
Qed.

Lemma exist_false {V} (table : gmap string V) k : exist table k = false ↔ table !! k = None.
Proof. unfold exist. by destruct (table !! k). Qed.

Lemma exist_true {V} (table : gmap string V) k : exist table k = true ↔ is_Some (table !! k).
Proof.
  unfold exist. destruct (table !! k) as [v|]; split; intros H; eauto; try done.
Qed.

Lemma len0_false s : len0 s = false ↔ s ≠ EmptyString.
Proof. by destruct s. Qed.

Lemma validate_None j w : validate j w = None → validated j w.
Proof.
  unfold validate. intros H.
  destruct (len0 (Jn.GetJournalID j)) eqn:E1; [done|].
  destruct (Nat.eqb _ 0) eqn:E2; [done|].
  destruct (len0 (Jn.GetCreateBy j)) eqn:E3; [done|].
  destruct (exist (InMemoryJournalTable w) _) eqn:E4; [done|].
  destruct (existsb _ _) eqn:E5 in H; [done|].
  destruct (existsb _ _) eqn:E6 in H; [done|].
  destruct (negb _) eqn:E7 in H; [done|].
  destruct (dup_in _ _) eqn:E8; [done|].
  destruct (existsb _ _) eqn:E9 in H; [done|].
  destruct (mix_in _ _ _ _) eqn:E10; [done|].
  destruct (Jn.GetReversedJournal j) eqn:E11; [done|].
  split.
  - by apply len0_false.
  - intros Hnil. by rewrite Hnil in E2.
  - by apply len0_false.
  - by apply exist_false.
  - intros trx Htrx. eapply existsb_false in E5; [|done]. by apply len0_false.
  - intros trx Htrx. eapply existsb_false in E6; [|done]. by apply exist_false.
  - apply negb_false_iff, Z.eqb_eq in E7. done.
  - by apply dup_in_false in E8 as [? _].
  - intros trx Htrx. eapply existsb_false in E9; [|done].
    by apply negb_false_iff, exist_true in E9.
  - done.
Qed.

Lemma write_phase_eq j creditSum w :
  write_phase j creditSum w =
  for_each (Jn.GetTransactions j) (save_transaction (Jn.GetJournalID j))
    (mkWorld (<[Jn.GetJournalID j :=
                  saved_journal j creditSum (clock w (ticks w)) (clock w (1 + ticks w))]>
                (InMemoryJournalTable w))
             (InMemoryAccountTable w) (InMemoryTransactionTable w)
             (clock w) (2 + ticks w)).
Proof.
  unfold write_phase, saved_journal, bind, time_Now, modify, set_journals. simpl.
  by destruct (Jn.GetReversedJournal j).
Qed.

(** A successful [PersistJournal]: the checks passed, and the tables are
    the old ones with the journal, its transactions and the new balances
    written. *)
Lemma PersistJournal_success j w w' :
  PersistJournal (Some j) w = Some (inr tt, w') →
  validated j w
  ∧ InMemoryJournalTable w' =
      <[Jn.GetJournalID j :=
          saved_journal j (sum_loop (Jn.GetTransactions j)).1
                        (clock w (ticks w)) (clock w (1 + ticks w))]>
        (InMemoryJournalTable w)
  ∧ (∀ k, k ∉ Tx.GetAccountNumber <$> Jn.GetTransactions j →
       InMemoryAccountTable w' !! k = InMemoryAccountTable w !! k)
  ∧ (∀ trx, trx ∈ Jn.GetTransactions j → ∃ acc t,
       InMemoryAccountTable w !! Tx.GetAccountNumber trx = Some acc
       ∧ InMemoryAccountTable w' !! Tx.GetAccountNumber trx
         = Some (saved_account trx acc t))
  ∧ (∀ id, id ∉ Tx.GetTransactionID <$> Jn.GetTransactions j →
       InMemoryTransactionTable w' !! id = InMemoryTransactionTable w !! id)
  ∧ (∀ id, id ∈ Tx.GetTransactionID <$> Jn.GetTransactions j → ∃ trx acc t1 t2,
       trx ∈ Jn.GetTransactions j ∧ Tx.GetTransactionID trx = id
       ∧ InMemoryAccountTable w !! Tx.GetAccountNumber trx = Some acc
       ∧ InMemoryTransactionTable w' !! id
         = Some (saved_transaction (Jn.GetJournalID j) trx acc t1 t2)).
Proof.
  rewrite PersistJournal_eq. destruct (validate j w) eqn:Ev; [done|].
  apply validate_None in Ev. rewrite write_phase_eq. intros Hrun.
  apply save_loop_spec in Hrun as (_ & HJ & _ & HA & HA' & HT & HT');
    [|by destruct Ev].
  simpl in *. done.
Qed.


(** A journal that names a journal it reverses is never persisted: check 9
    asks [IsJournalIdReversed] about the ID of the journal at hand, which
    check 2 has just found missing from the table. *)
Lemma PersistJournal_reversal j rj w r w' :
  Jn.GetReversedJournal j = Some rj →
  PersistJournal (Some j) w = Some (r, w') →
  ∃ e, r = inl e ∧ e ≠ ErrJournalCanNotDoubleReverse ∧ w' = w.
Proof.
  intros Hrj. rewrite PersistJournal_eq. destruct (validate j w) as [e|] eqn:Ev.
  - intros [= <- <-]. exists e. split; [done|]. split; [|done].
    unfold validate in Ev. rewrite Hrj in Ev. intros ->.
    repeat case_match; discriminate.
  - apply validate_None in Ev. destruct Ev. congruence.
Qed.

(** ** Balance propagation *)

Lemma wrap64_id z : int64_range z → wrap64 z = z.
Proof. unfold int64_range, wrap64. intros H. rewrite Z.mod_small; lia. Qed.

Lemma wrap64_range z : int64_range (wrap64 z).
Proof.
  unfold int64_range, wrap64.
  pose proof (Z.mod_pos_bound (z + 2 ^ 63) (2 ^ 64)). lia.
Qed.

Lemma newBalance_spec d b bal amount :
  newBalance d b bal amount = wrap64 (spec_newBal d b bal amount).
Proof.
  unfold newBalance, spec_newBal, add64, sub64.
  destruct (Z.eqb_spec d b); by case_decide.
Qed.

(** C3: after a successful [PersistJournal], every transaction record the
    call has added carries, as its balance snapshot, the balance of its
    account before the call plus the amount if the direction of the
    transaction is the base direction of the account, minus the amount
    otherwise, in [int64] arithmetic (it is the exact sum or difference
    whenever that fits in an [int64]); the snapshot is the new balance of
    the account. Every transaction of the journal moves the balance of its
    account by the same rule. *)
Theorem PersistJournal_balance_propagation :
  ∀ (j : Journal) (w w' : World),
    PersistJournal (Some j) w = Some (inr tt, w') →
    (∀ id rec,
       InMemoryTransactionTable w' !! id = Some rec →
       InMemoryTransactionTable w !! id = None →
       ∃ trx acc acc',
         trx ∈ Jn.GetTransactions j
         ∧ TRec.transactionId rec = Tx.GetTransactionID trx
         ∧ TRec.accountNumber rec = Tx.GetAccountNumber trx
         ∧ TRec.transactionType rec = Tx.GetTransactionType trx
         ∧ TRec.amount rec = Tx.GetAmount trx
         ∧ InMemoryAccountTable w !! TRec.accountNumber rec = Some acc
         ∧ InMemoryAccountTable w' !! TRec.accountNumber rec = Some acc'
         ∧ TRec.accountBalance rec
           = wrap64 (spec_newBal (TRec.transactionType rec) (ARec.baseTransactionType acc)
                                 (ARec.balance acc) (TRec.amount rec))
         ∧ (int64_range (spec_newBal (TRec.transactionType rec)
                                     (ARec.baseTransactionType acc)
                                     (ARec.balance acc) (TRec.amount rec)) →
            TRec.accountBalance rec
            = spec_newBal (TRec.transactionType rec) (ARec.baseTransactionType acc)
                          (ARec.balance acc) (TRec.amount rec))
         ∧ ARec.balance acc' = TRec.accountBalance rec
         ∧ ARec.baseTransactionType acc' = ARec.baseTransactionType acc)
    ∧ (∀ trx, trx ∈ Jn.GetTransactions j →
       ∃ acc acc',
         InMemoryAccountTable w !! Tx.GetAccountNumber trx = Some acc
         ∧ InMemoryAccountTable w' !! Tx.GetAccountNumber trx = Some acc'
         ∧ ARec.balance acc'
           = wrap64 (spec_newBal (Tx.GetTransactionType trx) (ARec.baseTransactionType acc)
                                 (ARec.balance acc) (Tx.GetAmount trx))).
Proof.
  intros j w w' Hrun.
  apply PersistJournal_success in Hrun as (Hv & HJ & HA & HA' & HT & HT').
  split.
  - intros id rec Hrec Hfresh.
    destruct (decide (id ∈ Tx.GetTransactionID <$> Jn.GetTransactions j)) as [Hin|Hnin].
    + destruct (HT' _ Hin) as (trx & acc & t1 & t2 & Htrx & <- & Hacc & Hsaved).
      rewrite Hrec in Hsaved. injection Hsaved as ->.
      destruct (HA' _ Htrx) as (acc0 & t & Hacc0 & Hacc').
      rewrite Hacc in Hacc0. injection Hacc0 as <-.
      exists trx, acc, (saved_account trx acc t). simpl.
      repeat split; try done.
      * apply newBalance_spec.
      * intros Hr. by rewrite newBalance_spec, wrap64_id.
    + rewrite (HT _ Hnin) in Hrec. congruence.
  - intros trx Htrx. destruct (HA' _ Htrx) as (acc & t & Hacc & Hacc').
    exists acc, (saved_account trx acc t). repeat split; try done.
    apply newBalance_spec.
Qed.

Lemma run_all_reachable ops : ∀ w w', reachable w → run_all ops w = Some w' → reachable w'.
Proof.
  induction ops as [|op ops IH]; intros w w' Hw; simpl.
  - by intros [= <-].
  - destruct (run op w) as [[r w1]|] eqn:E; [|done].
    apply IH. by eapply reachable_step.
Qed.

Lemma world_J1_reachable : reachable world_J1.
Proof.
  apply (run_all_reachable
           [OpPersistAccount account_A1; OpPersistAccount account_A2;
            OpPersistJournal (Some journal_J1)]
           (init scenario_clock)); [constructor|].
  vm_compute. reflexivity.
Qed.

Lemma PersistJournal_balance_propagation_witness :
  PersistJournal (Some journal_J1) world_accounts = Some (inr tt, world_J1)
  ∧ ∀ trx, trx ∈ Jn.GetTransactions journal_J1 →
      ∃ acc acc',
        InMemoryAccountTable world_accounts !! Tx.GetAccountNumber trx = Some acc
        ∧ InMemoryAccountTable world_J1 !! Tx.GetAccountNumber trx = Some acc'
        ∧ ARec.balance acc'
          = wrap64 (spec_newBal (Tx.GetTransactionType trx) (ARec.baseTransactionType acc)
                                (ARec.balance acc) (Tx.GetAmount trx)).
Proof.
  split; [by vm_compute|].
  apply (PersistJournal_balance_propagation journal_J1 world_accounts world_J1).
  by vm_compute.
Defined.

(** The scenario's balances: J1 brings both accounts to 100. *)
Example scenario_balances :
  ARec.balance <$> InMemoryAccountTable world_J1 !! "A1" = Some 100%Z
  ∧ ARec.balance <$> InMemoryAccountTable world_J1 !! "A2" = Some 100%Z.
Proof. by vm_compute. Qed.

(** ** Reversal journals *)

(** C1, at the scenario of the spec: J1 is persisted and no journal
    reverses it, and yet persisting J2, the reversal of J1, fails, with
    the not-found error of [IsJournalIdReversed] asked about J2 itself; the
    world stays as it is, no linkage to J1 is recorded. *)
Theorem PersistJournal_first_reversal_rejected :
  IsJournalIdReversed "J1" world_J1 = Some (inr false, world_J1)
  ∧ PersistJournal (Some journal_J2) world_J1 = Some (inl ErrJournalIdNotFound, world_J1).
Proof. split; by vm_compute. Qed.

(** ** Conservation *)

Lemma sum_loop_totals (l : list Transaction) :
  ∀ c d,
    fold_left sum_step l (c, d) =
    (fold_left (λ total t,
       if (Tx.GetTransactionType t =? CREDIT)%Z then add64 total (Tx.GetAmount t)
       else total) l c,
     fold_left (λ total t,
       if (Tx.GetTransactionType t =? DEBIT)%Z then add64 total (Tx.GetAmount t)
       else total) l d).
Proof. induction l as [|x l IH]; intros c d; simpl; [done|]. by rewrite IH. Qed.

Lemma sum_loop_eq j :
  sum_loop (Jn.GetTransactions j) = (GetTotalCredit j, GetTotalDebit j).
Proof. apply sum_loop_totals. Qed.


(** The sums of the balance check are [int64] sums: J6 is persisted, its
    debit amounts adding up to 2^63 over the integers and its credit amounts
    to -2^63, both sums being -2^63 in [int64]. *)
Example PersistJournal_sums_wrap :
  returned (PersistJournal (Some journal_J6) world_three_accounts) = Some tt
  ∧ (GetTotalDebit journal_J6, GetTotalCredit journal_J6) = (- 2 ^ 63, - 2 ^ 63)%Z
  ∧ (2 ^ 63 - 1 + 1 ≠ - 2 ^ 63)%Z.
Proof. vm_compute. repeat split; discriminate. Qed.




(** ** Idempotent rejection *)




(** ** The account manager *)

Lemma PersistAccount_eq a w :
  PersistAccount a w =
  if len0 (Ac.GetAccountNumber a) then Some (inl ErrAccountMissingID, w)
  else if len0 (Ac.GetName a) then Some (inl ErrAccountMissingName, w)
  else if len0 (Ac.GetDescription a) then Some (inl ErrAccountMissingDescription, w)
  else if len0 (Ac.GetCreateBy a) then Some (inl ErrAccountMissingCreator, w)
  else if exist (InMemoryAccountTable w) (Ac.GetAccountNumber a)
  then Some (inl ErrAccountAlreadyPersisted, w)
  else Some (inr tt,
             mkWorld (InMemoryJournalTable w)
                     (<[Ac.GetAccountNumber a :=
                          account_record a (clock w (ticks w)) (clock w (1 + ticks w))]>
                        (InMemoryAccountTable w))
                     (InMemoryTransactionTable w) (clock w) (2 + ticks w)).
Proof.
  unfold PersistAccount. repeat (rewrite bind_fail_if; case_match; [done|]).
  unfold bind at 1, IsAccountIdExist, bind, get, ret. simpl.
  by destruct (exist _ _).
Qed.

Lemma UpdateAccount_eq a w :
  UpdateAccount a w =
  if len0 (Ac.GetAccountNumber a) then Some (inl ErrAccountMissingID, w)
  else if len0 (Ac.GetName a) then Some (inl ErrAccountMissingName, w)
  else if len0 (Ac.GetDescription a) then Some (inl ErrAccountMissingDescription, w)
  else if len0 (Ac.GetCreateBy a) then Some (inl ErrAccountMissingCreator, w)
  else if negb (exist (InMemoryAccountTable w) (Ac.GetAccountNumber a))
  then Some (inl ErrAccountIsNotPersisted, w)
  else Some (inr tt,
             mkWorld (InMemoryJournalTable w)
                     (<[Ac.GetAccountNumber a :=
                          account_record a (clock w (ticks w)) (clock w (1 + ticks w))]>
                        (InMemoryAccountTable w))
                     (InMemoryTransactionTable w) (clock w) (2 + ticks w)).
Proof.
  unfold UpdateAccount. repeat (rewrite bind_fail_if; case_match; [done|]).
  unfold bind at 1, IsAccountIdExist, bind, get, ret. simpl.
  by destruct (exist _ _).
Qed.

(** C10: a successful [UpdateAccount] is one on an account that exists, and
    it leaves under the account number a record made of the values of the
    caller alone: the balance is the caller's, whatever the postings
    persisted on the account add up to, and the creation time is the
    reading of the clock at the call, [clock w (ticks w)], not the one
    stored before. The other accounts, the journals and the transactions
    stay as they are. *)
Theorem UpdateAccount_replaces_record :
  ∀ (a : Account) (w w' : World),
    UpdateAccount a w = Some (inr tt, w') →
    is_Some (InMemoryAccountTable w !! Ac.GetAccountNumber a)
    ∧ time_Now w = Some (inr (clock w (ticks w)),
                         mkWorld (InMemoryJournalTable w) (InMemoryAccountTable w)
                                 (InMemoryTransactionTable w) (clock w) (S (ticks w)))
    ∧ InMemoryAccountTable w' !! Ac.GetAccountNumber a
      = Some (ARec.mk (Ac.GetCurrency a) (Ac.GetAccountNumber a) (Ac.GetName a)
                      (Ac.GetDescription a) (Ac.GetBaseTransactionType a)
                      (Ac.GetBalance a) (Ac.GetCOA a) (clock w (ticks w))
                      (Ac.GetCreateBy a) (clock w (S (ticks w))) (Ac.GetUpdateBy a))
    ∧ (∀ k, k ≠ Ac.GetAccountNumber a →
         InMemoryAccountTable w' !! k = InMemoryAccountTable w !! k)
    ∧ InMemoryJournalTable w' = InMemoryJournalTable w
    ∧ InMemoryTransactionTable w' = InMemoryTransactionTable w.
Proof.
  intros a w w'. rewrite UpdateAccount_eq.
  repeat (case_match; [done|]).
  destruct (exist _ _) eqn:E; [|done]. intros [= <-]. simpl.
  split; [by apply exist_true|]. split; [done|]. split; [apply lookup_insert_eq|].
  split; [|done]. intros k Hk. by apply lookup_insert_ne.
Qed.

Lemma UpdateAccount_replaces_record_witness :
  UpdateAccount account_A1_edited world_J1 = Some (inr tt, world_A1_edited)
  ∧ ARec.balance <$> InMemoryAccountTable world_J1 !! "A1" = Some 100%Z
  ∧ ARec.createTime <$> InMemoryAccountTable world_J1 !! "A1" = Some 0%Z
  ∧ ARec.balance <$> InMemoryAccountTable world_A1_edited !! "A1" = Some 999%Z
  ∧ ARec.createTime <$> InMemoryAccountTable world_A1_edited !! "A1" = Some 12%Z
  ∧ InMemoryTransactionTable world_A1_edited = InMemoryTransactionTable world_J1.
Proof.
  assert (H : UpdateAccount account_A1_edited world_J1 = Some (inr tt, world_A1_edited))
    by (vm_compute; reflexivity).
  split; [exact H|].
  do 4 (split; [vm_compute; reflexivity|]).
  exact (proj2 (proj2 (proj2 (proj2 (proj2
    (UpdateAccount_replaces_record account_A1_edited world_J1 world_A1_edited H)))))).
Defined.

(** ** Queries only read *)

Lemma readonly_GetJournalById fuel : ∀ journalId, readonly (GetJournalById fuel journalId).
Proof.
  induction fuel as [|fuel IH]; intros journalId; simpl; [apply readonly_panic|].
  apply readonly_bind; [apply readonly_get|intros w0].
  destruct (InMemoryJournalTable w0 !! journalId) as [journalRecord|];
    [|apply readonly_throw].
  apply readonly_bind.
  - destruct (JRec.reversal journalRecord); [|apply readonly_ret].
    apply readonly_bind; [apply readonly_or_else_error, IH|]. intros ?. apply readonly_ret.
  - intros ?. readonly_tac.
Qed.

Lemma readonly_ListJournals fuel from until request :
  readonly (ListJournals fuel from until request).
Proof.
  unfold ListJournals.
  repeat first [ apply readonly_GetJournalById | apply readonly_collect; intros ?
               | apply readonly_bind; [|intros ?] | progress eauto with readonly ].
Qed.

Lemma readonly_list_accounts_page resultSlice request :
  readonly (list_accounts_page resultSlice request).
Proof. unfold list_accounts_page. readonly_tac. Qed.

#[local] Hint Resolve readonly_GetJournalById readonly_ListJournals
  readonly_list_accounts_page : readonly.

Lemma readonly_query op :
  match op with
  | OpPersistJournal _ | OpPersistAccount _ | OpUpdateAccount _ => True
  | _ => readonly (run op)
  end.
Proof.
  destruct op; try done; simpl;
    unfold CommitJournal, CancelJournal, IsJournalIdExist, IsAccountIdExist,
      GetAccountById, ListAccounts, ListAccountByCOA, FindAccounts,
      IsTransactionIdExist, GetTransactionById, ListTransactionsOnAccount;
    readonly_tac.
Qed.

(** ** Persisted journals and transactions stay *)

Lemma keeps_records_refl w : keeps_records w w.
Proof. by split. Qed.

Lemma keeps_records_trans w1 w2 w3 :
  keeps_records w1 w2 → keeps_records w2 w3 → keeps_records w1 w3.
Proof. intros [H1 H2] [H3 H4]. split; eauto. Qed.

Lemma PersistJournal_keeps_records j w r w' :
  PersistJournal j w = Some (r, w') → keeps_records w w'.
Proof.
  destruct r as [e|[]].
  - intros ->%PersistJournal_fail_closed. apply keeps_records_refl.
  - destruct j as [j|]; [|done].
    intros (Hv & HJ & _ & _ & HT & _)%PersistJournal_success. split.
    + intros id rec Hrec. rewrite HJ. rewrite lookup_insert_ne; [done|].
      intros <-. destruct Hv. congruence.
    + intros id rec Hrec. rewrite HT; [done|].
      intros (trx & -> & Htrx)%list_elem_of_fmap.
      destruct Hv as [_ _ _ _ _ Hfresh _ _ _ _]. apply Hfresh in Htrx. congruence.
Qed.

Lemma run_keeps_records op w r w' : run op w = Some (r, w') → keeps_records w w'.
Proof.
  pose proof (readonly_query op) as Hq.
  destruct op;
    try (intros ->%Hq; apply keeps_records_refl); simpl.
  - apply PersistJournal_keeps_records.
  - rewrite PersistAccount_eq. repeat case_match; intros [= <- <-]; by split.
  - rewrite UpdateAccount_eq. repeat case_match; intros [= <- <-]; by split.
Qed.

(** C5: whatever operations of the three managers run, in whatever order
    and with whatever arguments, every journal record and every transaction
    record that was in the store before them is in the store after them,
    under its ID and field for field. [PersistJournal], the one operation
    that writes to the two tables, writes only under IDs that checks 2 and 4
    found absent, and [Op] has no operation that deletes or updates. *)
Theorem persisted_records_are_immutable :
  ∀ (ops : list Op) (w w' : World),
    run_all ops w = Some w' →
    (∀ id rec, InMemoryJournalTable w !! id = Some rec →
               InMemoryJournalTable w' !! id = Some rec)
    ∧ (∀ id rec, InMemoryTransactionTable w !! id = Some rec →
                 InMemoryTransactionTable w' !! id = Some rec).
Proof.
  induction ops as [|op ops IH]; intros w w'; simpl.
  - intros [= <-]. apply keeps_records_refl.
  - destruct (run op w) as [[r w1]|] eqn:E; [|done]. intros Hrest.
    eapply keeps_records_trans; [by eapply run_keeps_records|by apply IH].
Qed.

Lemma persisted_records_are_immutable_witness :
  run_all [OpPersistJournal (Some journal_J4); OpPersistJournal (Some journal_J1);
           OpPersistJournal (Some journal_J3); OpCancelJournal (Some journal_J1)]
          world_J1 = Some world_J3
  ∧ keeps_records world_J1 world_J3.
Proof.
  assert (H : run_all [OpPersistJournal (Some journal_J4);
                       OpPersistJournal (Some journal_J1);
                       OpPersistJournal (Some journal_J3);
                       OpCancelJournal (Some journal_J1)]
                      world_J1 = Some world_J3)
    by (vm_compute; reflexivity).
  split; [exact H|].
  exact (persisted_records_are_immutable _ world_J1 world_J3 H).
Defined.

(** The records in question are those in the store when a call starts.
    Within one call, the checks do not compare the transaction IDs of the
    journal with each other: of the two transactions of J7 only the second
    has a record once the call is over, while both have moved a balance. *)
Example PersistJournal_shared_transaction_id :
  returned (PersistJournal (Some journal_J7) world_accounts) = Some tt
  ∧ (map_to_list (InMemoryTransactionTable world_J7)).*1 = ["T20"]
  ∧ TRec.accountNumber <$> InMemoryTransactionTable world_J7 !! "T20" = Some "A2"
  ∧ ARec.balance <$> InMemoryAccountTable world_J7 !! "A1" = Some 5%Z.
Proof. vm_compute. done. Qed.

(** ** Transaction types beyond DEBIT and CREDIT *)

Lemma totals_of_other_types (l : list Transaction) :
  Forall (λ trx, Tx.GetTransactionType trx ≠ DEBIT ∧ Tx.GetTransactionType trx ≠ CREDIT) l →
  ∀ c d, fold_left sum_step l (c, d) = (c, d).
Proof.
  induction 1 as [|x l [Hd Hc] _ IH]; intros c d; simpl; [done|].
  apply Z.eqb_neq in Hd, Hc. by rewrite Hd, Hc, IH.
Qed.

Lemma wrap64_moves bal amount :
  int64_range amount → amount ≠ 0%Z →
  wrap64 (bal + amount) ≠ bal ∧ wrap64 (bal - amount) ≠ bal.
Proof.
  unfold int64_range, wrap64. intros Hr Hne.
  split; intros Heq.
  - pose proof (Z.mod_pos_bound (bal + amount + 2 ^ 63) (2 ^ 64) eq_refl) as Hb.
    pose proof (Z.div_mod (bal + amount + 2 ^ 63) (2 ^ 64)) as Hdm.
    destruct (decide ((bal + amount + 2 ^ 63) `div` 2 ^ 64 = 0)%Z) as [H0|H0]; nia.
  - pose proof (Z.mod_pos_bound (bal - amount + 2 ^ 63) (2 ^ 64) eq_refl) as Hb.
    pose proof (Z.div_mod (bal - amount + 2 ^ 63) (2 ^ 64)) as Hdm.
    destruct (decide ((bal - amount + 2 ^ 63) `div` 2 ^ 64 = 0)%Z) as [H0|H0]; nia.
Qed.

Lemma validate_NotBalance j w :
  validate j w = Some ErrJournalNotBalance →
  (sum_loop (Jn.GetTransactions j)).1 ≠ (sum_loop (Jn.GetTransactions j)).2.
Proof.
  unfold validate. intros H Heq. rewrite Heq, Z.eqb_refl in H. cbn [negb] in H.
  repeat case_match; discriminate.
Qed.

(** C9: take a journal all of whose transactions have a type that is
    neither DEBIT nor CREDIT. Both sums of the balance check are 0,
    whatever the amounts, so the journal is never rejected as not balanced;
    and when it is persisted, each of its transactions moves the balance of
    its account by the rule of the write loop: down by the amount when the
    type differs from the base type of the account (up when the account has
    the same odd base type), the balance differing from the old one as soon
    as the amount is a non-zero [int64]. *)
Theorem PersistJournal_other_transaction_types :
  ∀ (j : Journal) (w : World),
    Forall (λ trx, Tx.GetTransactionType trx ≠ DEBIT
                   ∧ Tx.GetTransactionType trx ≠ CREDIT) (Jn.GetTransactions j) →
    GetTotalDebit j = 0%Z ∧ GetTotalCredit j = 0%Z
    ∧ (∀ r w', PersistJournal (Some j) w = Some (r, w') → r ≠ inl ErrJournalNotBalance)
    ∧ (∀ w', PersistJournal (Some j) w = Some (inr tt, w') →
         ∀ trx, trx ∈ Jn.GetTransactions j →
           ∃ acc acc',
             InMemoryAccountTable w !! Tx.GetAccountNumber trx = Some acc
             ∧ InMemoryAccountTable w' !! Tx.GetAccountNumber trx = Some acc'
             ∧ (Tx.GetTransactionType trx ≠ ARec.baseTransactionType acc →
                ARec.balance acc' = wrap64 (ARec.balance acc - Tx.GetAmount trx))
             ∧ (Tx.GetTransactionType trx = ARec.baseTransactionType acc →
                ARec.balance acc' = wrap64 (ARec.balance acc + Tx.GetAmount trx))
             ∧ (int64_range (Tx.GetAmount trx) → Tx.GetAmount trx ≠ 0%Z →
                ARec.balance acc' ≠ ARec.balance acc)).
Proof.
  intros j w Hty.
  pose proof (sum_loop_eq j) as Hsum. unfold sum_loop in Hsum.
  rewrite (totals_of_other_types _ Hty) in Hsum. injection Hsum as Hc Hd.
  split; [done|]. split; [done|]. split.
  - intros r w' Hrun ->. rewrite PersistJournal_eq in Hrun.
    destruct (validate j w) as [e|] eqn:Ev.
    + injection Hrun as -> _. apply validate_NotBalance in Ev.
      rewrite sum_loop_eq in Ev. cbn [fst snd] in Ev. congruence.
    + by apply no_throw_write_phase in Hrun.
  - intros w' Hrun trx Htrx.
    apply PersistJournal_success in Hrun as (_ & _ & _ & Hrun & _).
    destruct (Hrun _ Htrx) as (acc & t & Hacc & Hacc').
    exists acc, (saved_account trx acc t). split; [done|]. split; [done|].
    cbn [saved_account ARec.balance]. rewrite newBalance_spec.
    unfold spec_newBal. repeat split.
    + intros Hne. by case_decide.
    + intros Heq. by case_decide.
    + intros Hr Hne.
      destruct (wrap64_moves (ARec.balance acc) (Tx.GetAmount trx) Hr Hne).
      by case_decide.
Qed.

Lemma PersistJournal_other_transaction_types_witness :
  PersistJournal (Some journal_J5) world_accounts = Some (inr tt, world_J5)
  ∧ ARec.balance <$> InMemoryAccountTable world_accounts !! "A1" = Some 0%Z
  ∧ ARec.balance <$> InMemoryAccountTable world_J5 !! "A1" = Some (-100)%Z
  ∧ ARec.balance <$> InMemoryAccountTable world_J5 !! "A2" = Some (-30)%Z
  ∧ GetTotalDebit journal_J5 = 0%Z ∧ GetTotalCredit journal_J5 = 0%Z.
Proof.
  do 4 (split; [vm_compute; reflexivity|]).
  assert (H : Forall (λ trx, Tx.GetTransactionType trx ≠ DEBIT
                             ∧ Tx.GetTransactionType trx ≠ CREDIT)
                     (Jn.GetTransactions journal_J5))
    by (repeat constructor; discriminate).
  destruct (PersistJournal_other_transaction_types journal_J5 world_accounts H)
    as (Hd & Hc & _).
  exact (conj Hd Hc).
Defined.

(** ** The journal table of a reachable world *)

Lemma run_journal_table_wf op w r w' :
  run op w = Some (r, w') → journal_table_wf w → journal_table_wf w'.
Proof.
  pose proof (readonly_query op) as Hq.
  destruct op; try (by intros ->%Hq); simpl.
  - destruct r as [e|[]].
    + by intros ->%PersistJournal_fail_closed.
    + destruct journalToPersist as [j|]; [|done].
      intros (Hv & HJ & _)%PersistJournal_success Hwf k rec. rewrite HJ.
      destruct (decide (Jn.GetJournalID j = k)) as [<-|Hne].
      * rewrite lookup_insert_eq. intros [= <-]. unfold saved_journal.
        destruct Hv as [_ _ _ _ _ _ _ _ _ ->]. done.
      * rewrite lookup_insert_ne by done. apply Hwf.
  - rewrite PersistAccount_eq. repeat case_match; by intros [= <- <-].
  - rewrite UpdateAccount_eq. repeat case_match; by intros [= <- <-].
Qed.

Lemma reachable_journal_table_wf w : reachable w → journal_table_wf w.
Proof.
  induction 1 as [clk|w op r w' _ IH Hrun].
  - intros k r. cbn [init InMemoryJournalTable]. by rewrite lookup_empty.
  - by eapply run_journal_table_wf.
Qed.

Lemma GetJournalById_wf fuel w k r :
  journal_table_wf w → InMemoryJournalTable w !! k = Some r →
  GetJournalById (S fuel) k w = Some (inr (journal_view w r), w).
Proof.
  intros Hwf Hr. destruct (Hwf _ _ Hr) as [_ Hrev].
  cbn [GetJournalById]. unfold journal_view. rewrite bind_get, Hr, Hrev. done.
Qed.

Lemma elem_of_range_table {V} (table : gmap string V) (r : V) :
  r ∈ range_table table ↔ ∃ k, table !! k = Some r.
Proof.
  unfold range_table. rewrite list_elem_of_fmap. split.
  - intros ([k r'] & -> & Hin). exists k. by apply elem_of_map_to_list in Hin.
  - intros [k Hk]. exists (k, r). split; [done|]. by apply elem_of_map_to_list.
Qed.

Lemma collect_GetJournalById fuel w (l : list InMemoryJournalRecords) :
  journal_table_wf w →
  (∀ r, r ∈ l → r ∈ range_table (InMemoryJournalTable w)) →
  collect (λ r, GetJournalById (S fuel) (JRec.journalId r)) l w
  = Some (inr (journal_view w <$> l), w).
Proof.
  intros Hwf. induction l as [|r l IH]; intros Hl; [done|].
  assert (Hr : InMemoryJournalTable w !! JRec.journalId r = Some r).
  { destruct (proj1 (elem_of_range_table (InMemoryJournalTable w) r)) as [k Hk].
    - apply Hl. by apply elem_of_cons; left.
    - by destruct (Hwf _ _ Hk) as [-> _]. }
  cbn [collect]. unfold bind at 1. rewrite (GetJournalById_wf _ _ _ _ Hwf Hr).
  unfold bind at 1. rewrite IH; [done|].
  intros r' Hr'. apply Hl. by apply elem_of_cons; right.
Qed.

(** ** Sorting and the page window *)

Lemma stable_insert_Permutation {A} (less : A → A → bool) x l :
  stable_insert less x l ≡ₚ x :: l.
Proof.
  induction l as [|y l IH]; simpl; [done|].
  destruct (less y x); [|done]. rewrite IH. apply Permutation_swap.
Qed.

Lemma SliceStable_Permutation {A} (less : A → A → bool) l :
  SliceStable less l ≡ₚ l.
Proof.
  induction l as [|x l IH]; simpl; [done|].
  by rewrite stable_insert_Permutation, IH.
Qed.

Lemma length_SliceStable {A} (less : A → A → bool) l :
  length (SliceStable less l) = length l.
Proof. by rewrite SliceStable_Permutation. Qed.

Lemma elem_of_SliceStable {A} (less : A → A → bool) l x :
  x ∈ SliceStable less l ↔ x ∈ l.
Proof. by rewrite SliceStable_Permutation. Qed.

Lemma page_slice {A} (l : list A) request w :
  (0 < ItemSize request)%Z → (0 ≤ PageNo request)%Z →
  let pageResult := PageResultFor request (Z.of_nat (length l)) in
  make_check (PageSize pageResult) w = Some (inr tt, w)
  ∧ slice l (Offset pageResult) (Offset pageResult + PageSize pageResult) w
    = Some (inr (page_window request l), w).
Proof.
  intros HS HP. cbn [PageResultFor PageSize Offset]. unfold page_window.
  set (n := Z.of_nat (length l)). set (S := ItemSize request) in *.
  set (P := PageNo request) in *.
  assert (HPS : (0 ≤ P * S)%Z) by nia.
  assert (Hn : (0 ≤ n)%Z) by lia.
  split.
  - unfold make_check. destruct (Z.ltb_spec (Z.min S (n - Z.min (P * S) n)) 0); [lia|done].
  - unfold slice.
    destruct (Z.leb_spec 0 (Z.min (P * S) n)); [|lia].
    destruct (Z.leb_spec (Z.min (P * S) n)
                (Z.min (P * S) n + Z.min S (n - Z.min (P * S) n))); [|lia].
    destruct (Z.leb_spec (Z.min (P * S) n + Z.min S (n - Z.min (P * S) n))
                (Z.of_nat (length l))); [|lia].
    cbn [andb]. unfold ret. do 3 f_equal.
    replace (Z.min (P * S) n + Z.min S (n - Z.min (P * S) n) - Z.min (P * S) n)%Z
      with (Z.min S (n - Z.min (P * S) n)) by lia.
    destruct (Z.le_gt_cases (P * S) n) as [Hle|Hgt].
    + rewrite (Z.min_l (P * S) n) by done.
      destruct (Z.le_gt_cases S (n - P * S)) as [Hle'|Hgt'].
      * by rewrite Z.min_l.
      * rewrite Z.min_r by lia. rewrite !take_ge; [done| |]; rewrite length_drop; lia.
    + rewrite (Z.min_r (P * S) n) by lia.
      rewrite (drop_ge l (Z.to_nat (P * S))) by lia.
      rewrite (drop_ge l (Z.to_nat n)) by lia. by rewrite !take_nil.
Qed.

Lemma page_contract_PageResultFor {A B} request (items : list A) (f : A → B) :
  (0 < ItemSize request)%Z → (0 ≤ PageNo request)%Z →
  page_contract request items f
    (PageResultFor request (Z.of_nat (length items)))
    (f <$> page_window request items).
Proof.
  intros HS HP. unfold page_contract, page_window. cbn [PageResultFor TotalEntries TotalPages].
  set (n := Z.of_nat (length items)). set (S := ItemSize request) in *.
  set (P := PageNo request) in *.
  split; [done|]. split.
  { pose proof (Z.div_mod (n + S - 1) S) as Hdm.
    pose proof (Z.mod_pos_bound (n + S - 1) S HS) as Hb. nia. }
  split; [done|]. split.
  - intros Hrem. rewrite take_ge by (rewrite length_drop; lia).
    split; [done|]. rewrite length_fmap, length_drop. lia.
  - intros Hbeyond. rewrite drop_ge by nia. by rewrite take_nil.
Qed.

Lemma ListAccounts_eq request w :
  (0 < ItemSize request)%Z → (0 ≤ PageNo request)%Z →
  ListAccounts request w
  = Some (inr (PageResultFor request (Z.of_nat (length (accounts_by_creation w))),
               account_of_record <$> page_window request (accounts_by_creation w)), w).
Proof.
  intros HS HP. unfold ListAccounts, list_accounts_page. rewrite bind_get.
  fold (accounts_by_creation w).
  destruct (page_slice (accounts_by_creation w) request w HS HP) as [Hmk Hsl].
  unfold bind at 1. rewrite Hmk. unfold bind at 1. by rewrite Hsl.
Qed.

Lemma ListJournals_eq fuel from until request w :
  journal_table_wf w →
  (0 < ItemSize request)%Z → (0 ≤ PageNo request)%Z →
  ListJournals (S fuel) from until request w
  = Some (inr (PageResultFor request (Z.of_nat (length (journals_between from until w))),
               journal_view w <$> page_window request (journals_between from until w)), w).
Proof.
  intros Hwf HS HP. unfold ListJournals. rewrite bind_get.
  rewrite <- (length_SliceStable
    (λ a b, time_Before (JRec.journalingTime a) (JRec.journalingTime b))).
  fold (journals_between from until w).
  destruct (page_slice (journals_between from until w) request w HS HP) as [Hmk Hsl].
  unfold bind at 1. rewrite Hmk. unfold bind at 1. rewrite Hsl.
  unfold bind at 1. rewrite collect_GetJournalById; [done|done|].
  intros r Hr. unfold page_window in Hr.
  apply subseteq_take, subseteq_drop in Hr. unfold journals_between in Hr.
  apply elem_of_SliceStable, list_elem_of_filter in Hr. tauto.
Qed.

(** C7: in every world the program can reach, for every zero-based page
    request with a positive page size, [ListJournals] and [ListAccounts]
    return without an error and leave the world alone; the page is the
    window of the request on the matching items in order, which is exactly
    the remaining items, no more and no less, when fewer of them remain than
    the page size, and the empty list when the page index is beyond the
    last page; the metadata carry the number of matching items and the
    number of pages that hold them. *)
Theorem listing_page_boundaries :
  ∀ (w : World) (fuel : nat) (from until : Time) (request : PageRequest),
    reachable w →
    (0 < ItemSize request)%Z → (0 ≤ PageNo request)%Z →
    ∃ (resultJ resultA : PageResult) (journals : list Journal) (accounts : list Account),
      ListJournals (S fuel) from until request w = Some (inr (resultJ, journals), w)
      ∧ page_contract request (journals_between from until w) (journal_view w)
                      resultJ journals
      ∧ ListAccounts request w = Some (inr (resultA, accounts), w)
      ∧ page_contract request (accounts_by_creation w) account_of_record
                      resultA accounts.
Proof.
  intros w fuel from until request Hw HS HP.
  apply reachable_journal_table_wf in Hw.
  eexists _, _, _, _. split; [by apply ListJournals_eq|].
  split; [by apply page_contract_PageResultFor|].
  split; [by apply ListAccounts_eq|].
  by apply page_contract_PageResultFor.
Qed.

Lemma world_J3_reachable : reachable world_J3.
Proof.
  apply (run_all_reachable
           [OpPersistAccount account_A1; OpPersistAccount account_A2;
            OpPersistJournal (Some journal_J1); OpPersistJournal (Some journal_J3)]
           (init scenario_clock)); [constructor|].
  vm_compute. reflexivity.
Qed.

Lemma listing_page_boundaries_witness :
  ∃ (resultJ resultA : PageResult) (journals : list Journal) (accounts : list Account),
    ListJournals 1 0 1000 (mkPageRequest 0 5) world_J3
    = Some (inr (resultJ, journals), world_J3)
    ∧ page_contract (mkPageRequest 0 5) (journals_between 0 1000 world_J3)
                    (journal_view world_J3) resultJ journals
    ∧ ListAccounts (mkPageRequest 0 5) world_J3 = Some (inr (resultA, accounts), world_J3)
    ∧ page_contract (mkPageRequest 0 5) (accounts_by_creation world_J3)
                    account_of_record resultA accounts.
Proof.
  apply (listing_page_boundaries world_J3 0 0 1000 (mkPageRequest 0 5));
    [exact world_J3_reachable | simpl; lia | simpl; lia].
Defined.

(** Two journals are in the store: a page of five holds both on one page,
    page 1 of pages of one holds the second, page 7 is empty. *)
Example ListJournals_pages :
  let pages_and_ids (r : PageResult * list Journal) :=
    (TotalEntries r.1, TotalPages r.1, Jn.GetJournalID <$> r.2) in
  pages_and_ids <$> returned (ListJournals 1 0 1000 (mkPageRequest 0 5) world_J3)
  = Some (2%Z, 1%Z, ["J1"; "J3"])
  ∧ pages_and_ids <$> returned (ListJournals 1 0 1000 (mkPageRequest 1 1) world_J3)
    = Some (2%Z, 2%Z, ["J3"])
  ∧ pages_and_ids <$> returned (ListJournals 1 0 1000 (mkPageRequest 7 3) world_J3)
    = Some (2%Z, 1%Z, []).
Proof. vm_compute. done. Qed.

(** ** Transactions on an account *)

(** Whatever the range and the page, the call returns every transaction of
    the account. *)
Lemma ListTransactionsOnAccount_eq from until account request w :
  ListTransactionsOnAccount from until account request w
  = Some (inr (PageResultFor request (Z.of_nat (length (transactions_on account w))),
               transaction_of_record <$> transactions_on account w), w).
Proof. done. Qed.

(** C8, at an account with two transactions, T1 of time 6 and T5 of time
    14: asked for the transactions between 10 and 20, first page, one
    transaction a page, [ListTransactionsOnAccount] returns both, T1 from
    outside the range and one more than the page holds, where the claim
    has T5 alone. *)
Theorem ListTransactionsOnAccount_neither_range_nor_page :
  let ids_and_times (r : PageResult * list Transaction) :=
    (PageSize r.1, Tx.GetTransactionID <$> r.2, Tx.GetTransactionTime <$> r.2) in
  ids_and_times <$>
    returned (ListTransactionsOnAccount 10 20 account_A1 (mkPageRequest 0 1) world_J3)
  = Some (1%Z, ["T1"; "T5"], [6%Z; 14%Z]).
Proof. vm_compute. reflexivity. Qed.

(** * Further properties *)

(** ** What PersistJournal accepts *)

Lemma dup_in_NoDup (l : list Transaction) :
  ∀ seen,
    NoDup (Tx.GetAccountNumber <$> l) →
    (∀ a, a ∈ Tx.GetAccountNumber <$> l → seen !! a = None) →
    dup_in seen l = false.
Proof.
  induction l as [|x l IH]; intros seen Hnd Hseen; simpl; [done|].
  simpl in Hnd. apply NoDup_cons in Hnd as [Hx Hnd].
  apply orb_false_iff. split.
  - apply exist_false, Hseen. by apply elem_of_cons; left.
  - apply IH; [done|]. intros a Ha. apply lookup_insert_None. split.
    + apply Hseen. by apply elem_of_cons; right.
    + intros <-. done.
Qed.

Lemma mix_in_later (accounts : gmap string InMemoryAccountRecord) (l : list Transaction) :
  ∀ idx currency,
    idx ≠ 0 →
    (∀ trx, trx ∈ l → is_Some (accounts !! Tx.GetAccountNumber trx)) →
    mix_in accounts idx currency l = false ↔
    ∀ trx acc, trx ∈ l → accounts !! Tx.GetAccountNumber trx = Some acc →
               ARec.currency acc = currency.
Proof.
  induction l as [|x l IH]; intros idx currency Hidx Hall; simpl.
  - split; [|done]. intros _ trx acc Htrx. by apply elem_of_nil in Htrx.
  - destruct (Hall x) as [r Hr]; [by apply elem_of_cons; left|]. rewrite Hr.
    destruct idx as [|idx]; [done|]. cbn [Nat.eqb].
    rewrite orb_false_iff, negb_false_iff, String.eqb_eq, IH; [|done|].
    + split.
      * intros [Hc Hl] trx acc [->|Htrx]%elem_of_cons Hacc; [congruence|eauto].
      * intros H. split; [by eapply H; [apply elem_of_cons; left|]|].
        intros trx acc Htrx. apply H. by apply elem_of_cons; right.
    + intros trx Htrx. apply Hall. by apply elem_of_cons; right.
Qed.

Lemma mix_in_same_currency j w :
  (∀ trx, trx ∈ Jn.GetTransactions j →
          is_Some (InMemoryAccountTable w !! Tx.GetAccountNumber trx)) →
  mix_in (InMemoryAccountTable w) 0 EmptyString (Jn.GetTransactions j) = false
  ↔ same_currency j w.
Proof.
  unfold same_currency. destruct (Jn.GetTransactions j) as [|x l]; intros Hall.
  - split; [|done]. intros _ trx trx' acc acc' Htrx. by apply elem_of_nil in Htrx.
  - simpl. destruct (Hall x) as [r Hr]; [by apply elem_of_cons; left|]. rewrite Hr.
    rewrite mix_in_later; [|done|].
    + split.
      * intros H trx trx' acc acc' Htrx Htrx' Hacc Hacc'.
        assert (Hone : ∀ t a, t ∈ x :: l →
                  InMemoryAccountTable w !! Tx.GetAccountNumber t = Some a →
                  ARec.currency a = ARec.currency r).
        { intros t a [->|Ht]%elem_of_cons Ha; [congruence|eauto]. }
        rewrite (Hone _ _ Htrx Hacc), (Hone _ _ Htrx' Hacc'). done.
      * intros H trx acc Htrx Hacc.
        eapply H; [by apply elem_of_cons; right|by apply elem_of_cons; left|done|done].
    + intros trx Htrx. apply Hall. by apply elem_of_cons; right.
Qed.

Lemma validate_accepts j w :
  validated j w → same_currency j w → validate j w = None.
Proof.
  intros [Hid Htrxs Hby Hfresh Htid Htfresh Hbal Hnd Hacc Hrev] Hcur.
  unfold validate.
  apply len0_false in Hid. rewrite Hid.
  destruct (Jn.GetTransactions j) as [|x l] eqn:El; [done|]. rewrite <- El in *.
  replace (Nat.eqb (length (Jn.GetTransactions j)) 0) with false by by rewrite El.
  apply len0_false in Hby. rewrite Hby.
  apply exist_false in Hfresh. rewrite Hfresh.
  replace (existsb (λ trx, len0 (Tx.GetTransactionID trx)) (Jn.GetTransactions j))
    with false.
  2:{ symmetry. apply existsb_false. intros trx Htrx. by apply len0_false, Htid. }
  replace (existsb (λ trx, exist (InMemoryTransactionTable w) (Tx.GetTransactionID trx))
                   (Jn.GetTransactions j)) with false.
  2:{ symmetry. apply existsb_false. intros trx Htrx. by apply exist_false, Htfresh. }
  rewrite Hbal, Z.eqb_refl. cbn [negb].
  rewrite dup_in_NoDup; [|done|by intros a _].
  replace (existsb (λ trx, negb (exist (InMemoryAccountTable w) (Tx.GetAccountNumber trx)))
                   (Jn.GetTransactions j)) with false.
  2:{ symmetry. apply existsb_false. intros trx Htrx.
      by apply negb_false_iff, exist_true, Hacc. }
  apply mix_in_same_currency in Hcur; [|done]. by rewrite Hcur, Hrev.
Qed.

Lemma validate_None_same_currency j w : validate j w = None → same_currency j w.
Proof.
  intros Hv. pose proof (validate_None _ _ Hv) as Hvd.
  apply mix_in_same_currency; [by destruct Hvd|].
  unfold validate in Hv. repeat case_match; done.
Qed.


(** X2: [PersistJournal] returns nil exactly for the journals that have an
    ID, a transaction and an author, whose ID is not in the journal table,
    whose transactions have IDs that are not in the transaction table, whose
    DEBIT and CREDIT sums agree, whose transactions are on different
    accounts, all stored and of one currency, and that reverse no
    journal. *)
Theorem PersistJournal_succeeds_iff :
  ∀ (j : Journal) (w : World),
    (∃ w', PersistJournal (Some j) w = Some (inr tt, w'))
    ↔ Jn.GetJournalID j ≠ EmptyString
      ∧ Jn.GetTransactions j ≠ []
      ∧ Jn.GetCreateBy j ≠ EmptyString
      ∧ InMemoryJournalTable w !! Jn.GetJournalID j = None
      ∧ (∀ trx, trx ∈ Jn.GetTransactions j →
           Tx.GetTransactionID trx ≠ EmptyString
           ∧ InMemoryTransactionTable w !! Tx.GetTransactionID trx = None
           ∧ is_Some (InMemoryAccountTable w !! Tx.GetAccountNumber trx))
      ∧ GetTotalDebit j = GetTotalCredit j
      ∧ NoDup (Tx.GetAccountNumber <$> Jn.GetTransactions j)
      ∧ same_currency j w
      ∧ Jn.GetReversedJournal j = None.
Proof.
  intros j w. rewrite PersistJournal_eq. split.
  - intros [w' Hrun]. destruct (validate j w) eqn:Ev; [done|].
    pose proof (validate_None_same_currency _ _ Ev) as Hcur.
    apply validate_None in Ev as [Hid Htrxs Hby Hfresh Htid Htfresh Hbal Hnd Hacc Hrev].
    rewrite sum_loop_eq in Hbal. cbn [fst snd] in Hbal.
    repeat split; auto.
  - intros (Hid & Htrxs & Hby & Hfresh & Htrx & Hbal & Hnd & Hcur & Hrev).
    rewrite validate_accepts; [|split; try done|done].
    + rewrite write_phase_eq. apply save_loop_returns. simpl.
      intros trx Ht. by apply Htrx.
    + intros trx Ht. by apply Htrx.
    + intros trx Ht. by apply Htrx.
    + rewrite sum_loop_eq. done.
    + intros trx Ht. by apply Htrx.
Qed.

(** ** What PersistJournal leaves of the accounts *)

(** X3: a successful [PersistJournal] adds no account and removes none;
    the accounts its transactions do not name keep their records, and the
    ones they name keep currency, ID, name, description, base transaction
    type, COA, creation time and creator: the balance, the update time and
    the updater are all that changes. *)
Theorem PersistJournal_account_frame :
  ∀ (j : Journal) (w w' : World),
    PersistJournal (Some j) w = Some (inr tt, w') →
    (∀ k, is_Some (InMemoryAccountTable w' !! k) ↔ is_Some (InMemoryAccountTable w !! k))
    ∧ (∀ k, k ∉ Tx.GetAccountNumber <$> Jn.GetTransactions j →
            InMemoryAccountTable w' !! k = InMemoryAccountTable w !! k)
    ∧ (∀ k acc acc', InMemoryAccountTable w !! k = Some acc →
                     InMemoryAccountTable w' !! k = Some acc' →
                     same_account_identity acc acc').
Proof.
  intros j w w' (_ & _ & HA & HA' & _)%PersistJournal_success.
  assert (Hcase : ∀ k, InMemoryAccountTable w' !! k = InMemoryAccountTable w !! k
                       ∨ ∃ trx acc t, InMemoryAccountTable w !! k = Some acc
                           ∧ InMemoryAccountTable w' !! k = Some (saved_account trx acc t)).
  { intros k. destruct (decide (k ∈ Tx.GetAccountNumber <$> Jn.GetTransactions j))
      as [(trx & -> & Htrx)%list_elem_of_fmap|Hk]; [|by left; apply HA].
    right. destruct (HA' _ Htrx) as (acc & t & ? & ?). by exists trx, acc, t. }
  split; [|split; [done|]].
  - intros k. destruct (Hcase k) as [->|(trx & acc & t & -> & ->)]; [done|].
    split; eauto.
  - intros k acc acc' Hacc Hacc'.
    destruct (Hcase k) as [Heq|(trx & acc0 & t & H0 & H1)].
    + rewrite Heq, Hacc in Hacc'. injection Hacc' as <-. by repeat split.
    + rewrite Hacc in H0. injection H0 as <-. rewrite Hacc' in H1.
      injection H1 as ->. by repeat split.
Qed.

Lemma PersistJournal_account_frame_witness :
  PersistJournal (Some journal_J3) world_J1 = Some (inr tt, world_J3)
  ∧ ∀ k acc acc', InMemoryAccountTable world_J1 !! k = Some acc →
                  InMemoryAccountTable world_J3 !! k = Some acc' →
                  same_account_identity acc acc'.
Proof.
  assert (H : PersistJournal (Some journal_J3) world_J1 = Some (inr tt, world_J3))
    by (vm_compute; reflexivity).
  split; [exact H|].
  exact (proj2 (proj2 (PersistJournal_account_frame journal_J3 world_J1 world_J3 H))).
Defined.

(** ** The store of a reachable world *)

Lemma PersistJournal_store_integrity j w w' :
  PersistJournal (Some j) w = Some (inr tt, w') →
  store_integrity w → store_integrity w'.
Proof.
  intros (Hv & HJ & HA & HA' & HT & HT')%PersistJournal_success (IJ & IA & IT).
  destruct Hv as [Hid _ _ Hfresh Htid _ _ _ _ Hrev].
  assert (Hdom : ∀ k, is_Some (InMemoryJournalTable w !! k) →
                      is_Some (InMemoryJournalTable w' !! k)).
  { intros k [r Hr]. rewrite HJ. destruct (decide (Jn.GetJournalID j = k)) as [<-|Hne].
    - rewrite lookup_insert_eq. eauto.
    - rewrite lookup_insert_ne by done. eauto. }
  assert (Hcase : ∀ k, InMemoryAccountTable w' !! k = InMemoryAccountTable w !! k
                       ∨ ∃ trx acc t, InMemoryAccountTable w !! k = Some acc
                           ∧ InMemoryAccountTable w' !! k = Some (saved_account trx acc t)).
  { intros k. destruct (decide (k ∈ Tx.GetAccountNumber <$> Jn.GetTransactions j))
      as [(trx & -> & Htrx)%list_elem_of_fmap|Hk]; [|by left; apply HA].
    right. destruct (HA' _ Htrx) as (acc & t & ? & ?). by exists trx, acc, t. }
  assert (HdomA : ∀ k, is_Some (InMemoryAccountTable w !! k) →
                       is_Some (InMemoryAccountTable w' !! k)).
  { intros k Hk. destruct (Hcase k) as [->|(trx & acc & t & _ & ->)]; eauto. }
  split; [|split].
  - intros k r. rewrite HJ. destruct (decide (Jn.GetJournalID j = k)) as [<-|Hne].
    + rewrite lookup_insert_eq. intros [= <-]. unfold saved_journal. by rewrite Hrev.
    + rewrite lookup_insert_ne by done. apply IJ.
  - intros k r Hr. destruct (Hcase k) as [Heq|(trx & acc & t & H0 & H1)].
    + rewrite Heq in Hr. by apply IA.
    + rewrite Hr in H1. injection H1 as ->. by apply IA in H0.
  - intros k r Hr.
    destruct (decide (k ∈ Tx.GetTransactionID <$> Jn.GetTransactions j)) as [Hin|Hnin].
    + destruct (HT' _ Hin) as (trx & acc & t1 & t2 & Htrx & <- & Hacc & Hsaved).
      rewrite Hr in Hsaved. injection Hsaved as ->. simpl.
      split; [done|]. split; [by apply Htid|]. split.
      * rewrite HJ, lookup_insert_eq. eauto.
      * apply HdomA. eauto.
    + rewrite (HT _ Hnin) in Hr. destruct (IT _ _ Hr) as (? & ? & ? & ?).
      repeat split; auto.
Qed.

Lemma account_write_store_integrity a w :
  Ac.GetAccountNumber a ≠ EmptyString →
  store_integrity w →
  store_integrity
    (mkWorld (InMemoryJournalTable w)
             (<[Ac.GetAccountNumber a :=
                  account_record a (clock w (ticks w)) (clock w (1 + ticks w))]>
                (InMemoryAccountTable w))
             (InMemoryTransactionTable w) (clock w) (2 + ticks w)).
Proof.
  intros Hid (IJ & IA & IT). split; [done|]. split; simpl.
  - intros k r. destruct (decide (Ac.GetAccountNumber a = k)) as [<-|Hne].
    + rewrite lookup_insert_eq. by intros [= <-].
    + rewrite lookup_insert_ne by done. apply IA.
  - intros k r Hr. destruct (IT _ _ Hr) as (? & ? & ? & [acc Hacc]).
    repeat split; try done.
    destruct (decide (Ac.GetAccountNumber a = TRec.accountNumber r)) as [<-|Hne].
    + rewrite lookup_insert_eq. eauto.
    + rewrite lookup_insert_ne by done. eauto.
Qed.

Lemma run_store_integrity op w r w' :
  run op w = Some (r, w') → store_integrity w → store_integrity w'.
Proof.
  pose proof (readonly_query op) as Hq.
  destruct op; try (by intros ->%Hq); simpl.
  - destruct r as [e|[]].
    + by intros ->%PersistJournal_fail_closed.
    + destruct journalToPersist as [j|]; [|done]. apply PersistJournal_store_integrity.
  - rewrite PersistAccount_eq. destruct (len0 _) eqn:E; [by intros [= <- <-]|].
    repeat case_match; intros [= <- <-]; try done.
    apply account_write_store_integrity. by apply len0_false.
  - rewrite UpdateAccount_eq. destruct (len0 _) eqn:E; [by intros [= <- <-]|].
    repeat case_match; intros [= <- <-]; try done.
    apply account_write_store_integrity. by apply len0_false.
Qed.

Lemma store_integrity_reachable w : reachable w → store_integrity w.
Proof.
  induction 1 as [clk|w op r w' _ IH Hrun].
  - unfold store_integrity, init. simpl.
    split; [|split]; intros k r Hr; by rewrite lookup_empty in Hr.
  - by eapply run_store_integrity.
Qed.

(** X4: in every world the program reaches through the operations of the
    managers, each journal, account and transaction record is stored under
    its own non-empty ID, each transaction record names a journal and an
    account that are in their tables, and no journal record is marked as a
    reversal or names a reversed journal. *)
Theorem reachable_store_integrity :
  ∀ w : World, reachable w → store_integrity w.
Proof. exact store_integrity_reachable. Qed.

Lemma reachable_store_integrity_witness : store_integrity world_J3.
Proof. exact (reachable_store_integrity world_J3 world_J3_reachable). Defined.

(** ** IsJournalIdReversed *)

(** X5: for a journal ID that is in the journal table,
    [IsJournalIdReversed] returns without an error, and returns true
    exactly when some journal record names the ID as its reversed journal;
    for an ID that is not in the table it returns the not-found error. The
    world stays as it is. *)
Theorem IsJournalIdReversed_spec :
  ∀ (journalId : string) (w : World),
    (InMemoryJournalTable w !! journalId = None →
     IsJournalIdReversed journalId w = Some (inl ErrJournalIdNotFound, w))
    ∧ (is_Some (InMemoryJournalTable w !! journalId) →
       ∃ reversed, IsJournalIdReversed journalId w = Some (inr reversed, w)
         ∧ (reversed = true ↔
            ∃ k r, InMemoryJournalTable w !! k = Some r
                   ∧ JRec.reversedJournalId r = journalId)).
Proof.
  intros journalId w. unfold IsJournalIdReversed. rewrite bind_get. split.
  - intros Hnone%exist_false. by rewrite Hnone.
  - intros Hsome%exist_true. rewrite Hsome. eexists. split; [done|].
    rewrite existsb_exists. split.
    + intros ([k r] & Hin%list_elem_of_In%elem_of_map_to_list & Heq%String.eqb_eq).
      by exists k, r.
    + intros (k & r & Hr & Heq). exists (k, r). split.
      * by apply list_elem_of_In, elem_of_map_to_list.
      * by apply String.eqb_eq.
Qed.

Lemma IsJournalIdReversed_spec_witness :
  is_Some (InMemoryJournalTable world_J3 !! "J1")
  ∧ ∃ reversed, IsJournalIdReversed "J1" world_J3 = Some (inr reversed, world_J3)
      ∧ (reversed = true ↔
         ∃ k r, InMemoryJournalTable world_J3 !! k = Some r
                ∧ JRec.reversedJournalId r = "J1").
Proof.
  assert (H : is_Some (InMemoryJournalTable world_J3 !! "J1"))
    by (vm_compute; eexists; reflexivity).
  split; [exact H|].
  exact (proj2 (IsJournalIdReversed_spec "J1" world_J3) H).
Defined.

(** X6: in a world the program reaches through the operations of the
    managers, [IsJournalIdReversed] never returns true: it returns false for
    every journal in the table, the not-found error for every other ID. *)
Theorem IsJournalIdReversed_never_true :
  ∀ (journalId : string) (w : World),
    reachable w →
    IsJournalIdReversed journalId w
    = Some (if InMemoryJournalTable w !! journalId is Some _
            then inr false else inl ErrJournalIdNotFound, w).
Proof.
  intros journalId w (IJ & _)%store_integrity_reachable.
  unfold IsJournalIdReversed, exist. rewrite bind_get.
  destruct (InMemoryJournalTable w !! journalId) as [r0|] eqn:E; [|done].
  unfold ret. do 3 f_equal. apply existsb_false.
  intros [k r] Hin%elem_of_map_to_list. simpl.
  destruct (IJ _ _ Hin) as (_ & _ & _ & ->). destruct (IJ _ _ E) as (_ & Hne & _).
  apply String.eqb_neq. congruence.
Qed.

Lemma IsJournalIdReversed_never_true_witness :
  IsJournalIdReversed "J1" world_J3 = Some (inr false, world_J3).
Proof.
  exact (IsJournalIdReversed_never_true "J1" world_J3 world_J3_reachable).
Defined.

(** ** PersistAccount and UpdateAccount *)

(** X7: after a successful [PersistAccount], [GetAccountById] on the
    account number returns the account with every value the caller gave;
    creation and update time are the two readings of the clock the call
    took. The account was not in the table before, the other accounts, the
    journals and the transactions are as before. *)
Theorem PersistAccount_GetAccountById :
  ∀ (a : Account) (w w' : World),
    PersistAccount a w = Some (inr tt, w') →
    GetAccountById (Ac.GetAccountNumber a) w'
    = Some (inr (Ac.mk (Ac.GetCurrency a) (Ac.GetAccountNumber a) (Ac.GetName a)
                       (Ac.GetDescription a) (Ac.GetBaseTransactionType a)
                       (Ac.GetBalance a) (Ac.GetCOA a) (clock w (ticks w))
                       (Ac.GetCreateBy a) (clock w (S (ticks w))) (Ac.GetUpdateBy a)), w')
    ∧ InMemoryAccountTable w !! Ac.GetAccountNumber a = None
    ∧ (∀ k, k ≠ Ac.GetAccountNumber a →
            InMemoryAccountTable w' !! k = InMemoryAccountTable w !! k)
    ∧ InMemoryJournalTable w' = InMemoryJournalTable w
    ∧ InMemoryTransactionTable w' = InMemoryTransactionTable w.
Proof.
  intros a w w'. rewrite PersistAccount_eq.
  repeat (case_match; [done|]).
  destruct (exist _ _) eqn:E; [done|]. intros [= <-].
  unfold GetAccountById. rewrite bind_get. simpl. rewrite lookup_insert_eq.
  split; [done|]. split; [by apply exist_false|]. split; [|done].
  intros k Hk. by apply lookup_insert_ne.
Qed.

Lemma PersistAccount_GetAccountById_witness :
  PersistAccount account_A3 world_accounts = Some (inr tt, world_three_accounts)
  ∧ InMemoryAccountTable world_accounts !! Ac.GetAccountNumber account_A3 = None
  ∧ Ac.GetName <$> returned (GetAccountById "A3" world_three_accounts) = Some "Bank".
Proof.
  assert (H : PersistAccount account_A3 world_accounts
              = Some (inr tt, world_three_accounts))
    by (vm_compute; reflexivity).
  split; [exact H|]. split.
  - exact (proj1 (proj2
      (PersistAccount_GetAccountById account_A3 world_accounts world_three_accounts H))).
  - vm_compute. reflexivity.
Defined.

(** X8: take an account value with a number, a name, a description and a
    creator. If its number is not in the account table, [PersistAccount]
    accepts it and [UpdateAccount] rejects it as not persisted; if the number
    is in the table, [PersistAccount] rejects it as already persisted and
    [UpdateAccount] accepts it. A rejection leaves the world as it is. *)
Theorem PersistAccount_or_UpdateAccount :
  ∀ (a : Account) (w : World),
    Ac.GetAccountNumber a ≠ EmptyString → Ac.GetName a ≠ EmptyString →
    Ac.GetDescription a ≠ EmptyString → Ac.GetCreateBy a ≠ EmptyString →
    (InMemoryAccountTable w !! Ac.GetAccountNumber a = None →
     (∃ w', PersistAccount a w = Some (inr tt, w'))
     ∧ UpdateAccount a w = Some (inl ErrAccountIsNotPersisted, w))
    ∧ (is_Some (InMemoryAccountTable w !! Ac.GetAccountNumber a) →
       PersistAccount a w = Some (inl ErrAccountAlreadyPersisted, w)
       ∧ ∃ w', UpdateAccount a w = Some (inr tt, w')).
Proof.
  intros a w H1%len0_false H2%len0_false H3%len0_false H4%len0_false.
  rewrite PersistAccount_eq, UpdateAccount_eq, H1, H2, H3, H4. split.
  - intros ->%exist_false. split; [eauto|done].
  - intros ->%exist_true. split; [done|eauto].
Qed.

Lemma PersistAccount_or_UpdateAccount_witness :
  PersistAccount account_A1 world_J1 = Some (inl ErrAccountAlreadyPersisted, world_J1)
  ∧ ∃ w', UpdateAccount account_A1 world_J1 = Some (inr tt, w').
Proof.
  apply (PersistAccount_or_UpdateAccount account_A1 world_J1);
    [discriminate..|vm_compute; eexists; reflexivity].
Defined.

(** X9: [PersistAccount] and [UpdateAccount] write nothing when they
    return an error, and the mandatory values are asked for in a fixed
    order: an account without a number fails with the missing-ID error
    whatever else it lacks, then come the name, the description and the
    creator. *)
Theorem account_write_errors :
  ∀ (a : Account) (w : World),
    (∀ e w', PersistAccount a w = Some (inl e, w') → w' = w)
    ∧ (∀ e w', UpdateAccount a w = Some (inl e, w') → w' = w)
    ∧ ∀ write, write = PersistAccount ∨ write = UpdateAccount →
        (Ac.GetAccountNumber a = EmptyString →
         write a w = Some (inl ErrAccountMissingID, w))
        ∧ (Ac.GetAccountNumber a ≠ EmptyString → Ac.GetName a = EmptyString →
           write a w = Some (inl ErrAccountMissingName, w))
        ∧ (Ac.GetAccountNumber a ≠ EmptyString → Ac.GetName a ≠ EmptyString →
           Ac.GetDescription a = EmptyString →
           write a w = Some (inl ErrAccountMissingDescription, w))
        ∧ (Ac.GetAccountNumber a ≠ EmptyString → Ac.GetName a ≠ EmptyString →
           Ac.GetDescription a ≠ EmptyString → Ac.GetCreateBy a = EmptyString →
           write a w = Some (inl ErrAccountMissingCreator, w)).
Proof.
  intros a w. split; [|split].
  - intros e w'. rewrite PersistAccount_eq. repeat case_match; congruence.
  - intros e w'. rewrite UpdateAccount_eq. repeat case_match; congruence.
  - intros write [-> | ->]; [rewrite PersistAccount_eq|rewrite UpdateAccount_eq].
    all: repeat split; intros.
    all: repeat match goal with
           | H : _ ≠ EmptyString |- _ => apply len0_false in H; rewrite H; clear H
           | H : _ = EmptyString |- _ => rewrite H; clear H
           end.
    all: done.
Qed.

(** ** Reading back what PersistJournal wrote *)

Lemma saved_transaction_read_back journalId trx acc t1 t2 :
  read_back journalId trx acc
    (transaction_of_record (saved_transaction journalId trx acc t1 t2)).
Proof. repeat split. apply newBalance_spec. Qed.

(** X10: in a reachable world, after a successful [PersistJournal] of [j],
    [GetJournalById] on the ID of [j] returns a journal with the ID, the
    description and the creator of [j], with the sum of the CREDIT amounts
    as its amount, not a reversal; each of its transactions is a transaction
    of [j] read back, with the journal ID and the balance of its account
    after the posting, and every transaction ID of [j] is among them. *)
Theorem PersistJournal_GetJournalById :
  ∀ (j : Journal) (w w' : World) (fuel : nat),
    reachable w →
    PersistJournal (Some j) w = Some (inr tt, w') →
    ∃ journal,
      GetJournalById (S fuel) (Jn.GetJournalID j) w' = Some (inr journal, w')
      ∧ Jn.GetJournalID journal = Jn.GetJournalID j
      ∧ Jn.GetDescription journal = Jn.GetDescription j
      ∧ Jn.GetCreateBy journal = Jn.GetCreateBy j
      ∧ Jn.GetAmount journal = GetTotalCredit j
      ∧ Jn.IsReversal journal = false
      ∧ Jn.GetReversedJournal journal = None
      ∧ (∀ t, t ∈ Jn.GetTransactions journal →
           ∃ trx acc, trx ∈ Jn.GetTransactions j
             ∧ InMemoryAccountTable w !! Tx.GetAccountNumber trx = Some acc
             ∧ read_back (Jn.GetJournalID j) trx acc t)
      ∧ (∀ trx, trx ∈ Jn.GetTransactions j →
           ∃ t, t ∈ Jn.GetTransactions journal
                ∧ Tx.GetTransactionID t = Tx.GetTransactionID trx).
Proof.
  intros j w w' fuel Hw Hrun.
  assert (Hw' : reachable w')
    by exact (reachable_step w (OpPersistJournal (Some j)) _ w' Hw Hrun).
  pose proof (store_integrity_reachable _ Hw) as (_ & _ & IT).
  apply reachable_journal_table_wf in Hw'.
  apply PersistJournal_success in Hrun as (Hv & HJ & _ & _ & HT & HT').
  destruct Hv as [_ _ _ Hfresh _ _ _ _ _ Hrev].
  eexists. split.
  { apply GetJournalById_wf; [done|]. rewrite HJ. apply lookup_insert_eq. }
  unfold journal_view, saved_journal. rewrite Hrev, sum_loop_eq. cbn.
  repeat split.
  - intros t (r & -> & [Hjid Hr%elem_of_range_table]%list_elem_of_filter)%list_elem_of_fmap.
    destruct Hr as [k Hk].
    destruct (decide (k ∈ Tx.GetTransactionID <$> Jn.GetTransactions j)) as [Hin|Hnin].
    + destruct (HT' _ Hin) as (trx & acc & t1 & t2 & Htrx & _ & Hacc & Hsaved).
      rewrite Hk in Hsaved. injection Hsaved as ->.
      exists trx, acc. split; [done|]. split; [done|].
      apply saved_transaction_read_back.
    + rewrite (HT _ Hnin) in Hk. destruct (IT _ _ Hk) as (_ & _ & [r' Hr'] & _).
      congruence.
  - intros trx Htrx.
    destruct (HT' (Tx.GetTransactionID trx)) as (trx0 & acc & t1 & t2 & _ & Hid & _ & Hsaved);
      [by apply list_elem_of_fmap_2|].
    eexists. split.
    + apply list_elem_of_fmap_2, list_elem_of_filter. split; [|by eapply elem_of_range_table; eauto].
      done.
    + done.
Qed.

Lemma PersistJournal_GetJournalById_witness :
  ∃ journal,
    GetJournalById 1 "J3" world_J3 = Some (inr journal, world_J3)
    ∧ Jn.GetAmount journal = 40%Z
    ∧ Tx.GetTransactionID <$> Jn.GetTransactions journal = ["T5"; "T6"].
Proof.
  destruct (PersistJournal_GetJournalById journal_J3 world_J1 world_J3 0)
    as (journal & H & _); [exact world_J1_reachable|vm_compute; reflexivity|].
  exists journal. split; [exact H|].
  vm_compute in H. injection H as <-. split; reflexivity.
Defined.

(** X11: after a successful [PersistJournal] of [j], [GetTransactionById]
    on each transaction ID of [j] returns a transaction of [j] with that ID
    read back: the values of the caller, the ID of [j] as journal ID, and as
    account balance the balance of its account after the posting. *)
Theorem PersistJournal_GetTransactionById :
  ∀ (j : Journal) (w w' : World) (trx : Transaction),
    PersistJournal (Some j) w = Some (inr tt, w') →
    trx ∈ Jn.GetTransactions j →
    ∃ t trx' acc,
      GetTransactionById (Tx.GetTransactionID trx) w' = Some (inr t, w')
      ∧ trx' ∈ Jn.GetTransactions j
      ∧ Tx.GetTransactionID trx' = Tx.GetTransactionID trx
      ∧ InMemoryAccountTable w !! Tx.GetAccountNumber trx' = Some acc
      ∧ read_back (Jn.GetJournalID j) trx' acc t
      ∧ (NoDup (Tx.GetTransactionID <$> Jn.GetTransactions j) → trx' = trx).
Proof.
  intros j w w' trx (_ & _ & _ & _ & _ & HT')%PersistJournal_success Htrx.
  destruct (HT' (Tx.GetTransactionID trx)) as (trx' & acc & t1 & t2 & Htrx' & Hid & Hacc & Hsaved);
    [by apply list_elem_of_fmap_2|].
  eexists _, trx', acc. unfold GetTransactionById. rewrite bind_get, Hsaved.
  split; [done|]. repeat split; try done.
  - apply newBalance_spec.
  - intros Hnd. apply list_elem_of_lookup in Htrx as [i Hi], Htrx' as [i' Hi'].
    assert (i' = i) as ->; [|congruence].
    eapply NoDup_lookup; [done| |]; rewrite list_lookup_fmap; [by rewrite Hi'|].
    rewrite Hi. simpl. by rewrite Hid.
Qed.

Lemma PersistJournal_GetTransactionById_witness :
  ∃ t trx' acc,
    GetTransactionById "T5" world_J3 = Some (inr t, world_J3)
    ∧ trx' ∈ Jn.GetTransactions journal_J3
    ∧ Tx.GetTransactionID trx' = "T5"
    ∧ InMemoryAccountTable world_J1 !! Tx.GetAccountNumber trx' = Some acc
    ∧ read_back "J3" trx' acc t
    ∧ (NoDup (Tx.GetTransactionID <$> Jn.GetTransactions journal_J3) →
       trx' = Tx.mk "T5" 0 "A1" "J3" "cash in" DEBIT 40 0 0 "alice").
Proof.
  apply (PersistJournal_GetTransactionById journal_J3 world_J1 world_J3
           (Tx.mk "T5" 0 "A1" "J3" "cash in" DEBIT 40 0 0 "alice")).
  - vm_compute. reflexivity.
  - apply elem_of_cons. left. reflexivity.
Defined.

Lemma run_all_keeps_records ops : ∀ w w', run_all ops w = Some w' → keeps_records w w'.
Proof.
  induction ops as [|op ops IH]; intros w w'; simpl.
  - intros [= <-]. apply keeps_records_refl.
  - destruct (run op w) as [[r w1]|] eqn:E; [|done]. intros Hrest.
    eapply keeps_records_trans; [by eapply run_keeps_records|by apply IH].
Qed.

(** X12: what [GetTransactionById] has returned once for an ID it returns
    for that ID ever after, whatever operations of the managers run in
    between. *)
Theorem GetTransactionById_stable :
  ∀ (id : string) (t : Transaction) (ops : list Op) (w w' : World),
    GetTransactionById id w = Some (inr t, w) →
    run_all ops w = Some w' →
    GetTransactionById id w' = Some (inr t, w').
Proof.
  intros id t ops w w' Hget [_ HT]%run_all_keeps_records.
  unfold GetTransactionById in *. rewrite bind_get in *.
  destruct (InMemoryTransactionTable w !! id) as [r|] eqn:E; [|done].
  injection Hget as <-. by rewrite (HT _ _ E).
Qed.

Lemma GetTransactionById_stable_witness :
  GetTransactionById "T1" world_J3
  = Some (inr (Tx.mk "T1" 6 "A1" "J1" "cash in" DEBIT 100 100 7 "alice"), world_J3).
Proof.
  apply (GetTransactionById_stable "T1" _
           [OpPersistJournal (Some journal_J4); OpPersistJournal (Some journal_J3)]
           world_J1 world_J3); vm_compute; reflexivity.
Defined.

(** ** Existence queries and lookups *)

(** X13: the three existence queries answer what the lookups do: each
    returns true exactly for the IDs on which the lookup returns a value,
    and false exactly for those on which the lookup returns its not-found
    error (for journals, in a reachable world). None changes the world. *)
Theorem exist_queries_agree_with_lookups :
  ∀ (id : string) (w : World),
    (∃ b, IsAccountIdExist id w = Some (inr b, w)
          ∧ (b = true ↔ ∃ a, GetAccountById id w = Some (inr a, w))
          ∧ (b = false ↔ GetAccountById id w = Some (inl ErrAccountIdNotFound, w)))
    ∧ (∃ b, IsTransactionIdExist id w = Some (inr b, w)
            ∧ (b = true ↔ ∃ t, GetTransactionById id w = Some (inr t, w))
            ∧ (b = false ↔ GetTransactionById id w = Some (inl ErrTransactionNotFound, w)))
    ∧ (reachable w → ∀ fuel,
       ∃ b, IsJournalIdExist id w = Some (inr b, w)
            ∧ (b = true ↔ ∃ j, GetJournalById (S fuel) id w = Some (inr j, w))
            ∧ (b = false ↔ GetJournalById (S fuel) id w = Some (inl ErrJournalIdNotFound, w))).
Proof.
  intros id w. split; [|split].
  - unfold IsAccountIdExist, GetAccountById, exist. rewrite !bind_get.
    destruct (InMemoryAccountTable w !! id); eexists; (split; [done|]);
      split; split; try done; eauto; by intros [? ?].
  - unfold IsTransactionIdExist, GetTransactionById, exist. rewrite !bind_get.
    destruct (InMemoryTransactionTable w !! id); eexists; (split; [done|]);
      split; split; try done; eauto; by intros [? ?].
  - intros Hw%reachable_journal_table_wf fuel.
    unfold IsJournalIdExist, exist. rewrite bind_get.
    destruct (InMemoryJournalTable w !! id) as [r|] eqn:E; eexists; (split; [done|]).
    + rewrite (GetJournalById_wf _ _ _ _ Hw E). split; split; try done; eauto.
    + cbn [GetJournalById]. rewrite bind_get, E.
      split; split; try done. by intros [? ?].
Qed.

Lemma exist_queries_agree_with_lookups_witness :
  ∃ b, IsJournalIdExist "J1" world_J3 = Some (inr b, world_J3)
       ∧ (b = true ↔ ∃ j, GetJournalById 1 "J1" world_J3 = Some (inr j, world_J3))
       ∧ (b = false ↔
          GetJournalById 1 "J1" world_J3 = Some (inl ErrJournalIdNotFound, world_J3)).
Proof.
  exact (proj2 (proj2 (exist_queries_agree_with_lookups "J1" world_J3))
           world_J3_reachable 0).
Defined.

(** ** GetJournalById on chains of reversals *)

Lemma GetJournalById_reversal fuel journalId w r :
  InMemoryJournalTable w !! journalId = Some r →
  JRec.reversal r = true →
  GetJournalById (S fuel) journalId w =
  match GetJournalById fuel (JRec.reversedJournalId r) w with
  | None => None
  | Some (inl _, w') => Some (inl ErrJournalLoadReversalInconsistent, w')
  | Some (inr reversed, w') =>
    Some (inr (Jn.mk (JRec.journalId r) (JRec.journalingTime r) (JRec.description r)
                     true (Some reversed) (JRec.amount r)
                     (transaction_of_record <$>
                        filter (λ trx, TRec.journalId trx = JRec.journalId r)
                               (range_table (InMemoryTransactionTable w')))
                     (JRec.createTime r) (JRec.createBy r)), w')
  end.
Proof.
  intros E Hrev. cbn [GetJournalById]. rewrite bind_get, E, Hrev.
  unfold bind at 1, bind at 1, or_else_error.
  by destruct (GetJournalById fuel (JRec.reversedJournalId r) w) as [[[e|reversed] w']|].
Qed.

(** X14: [GetJournalById] returns the not-found error for an ID that is
    not in the journal table; for a reversal whose reversed journal is
    not in the table it returns the inconsistent-reversal error in place of
    that not-found error; and on a reversal that names itself as the
    journal it reverses it never returns, however deep it may recurse. *)
Theorem GetJournalById_reversal_chains :
  ∀ (journalId : string) (w : World),
    (InMemoryJournalTable w !! journalId = None →
     ∀ fuel, GetJournalById (S fuel) journalId w = Some (inl ErrJournalIdNotFound, w))
    ∧ (∀ r, InMemoryJournalTable w !! journalId = Some r →
            JRec.reversal r = true →
            InMemoryJournalTable w !! JRec.reversedJournalId r = None →
            ∀ fuel, GetJournalById (S (S fuel)) journalId w
                    = Some (inl ErrJournalLoadReversalInconsistent, w))
    ∧ (∀ r, InMemoryJournalTable w !! journalId = Some r →
            JRec.reversal r = true →
            JRec.reversedJournalId r = journalId →
            ∀ fuel, GetJournalById fuel journalId w = None).
Proof.
  intros journalId w. split; [|split].
  - intros E fuel. cbn [GetJournalById]. by rewrite bind_get, E.
  - intros r E Hrev Hnone fuel. rewrite (GetJournalById_reversal _ _ _ _ E Hrev).
    cbn [GetJournalById]. by rewrite bind_get, Hnone.
  - intros r E Hrev Hself fuel. induction fuel as [|fuel IH]; [done|].
    by rewrite (GetJournalById_reversal _ _ _ _ E Hrev), Hself, IH.
Qed.

Lemma GetJournalById_reversal_chains_witness :
  GetJournalById 5 "R0" world_loose_reversals
  = Some (inl ErrJournalIdNotFound, world_loose_reversals)
  ∧ GetJournalById 5 "R1" world_loose_reversals
    = Some (inl ErrJournalLoadReversalInconsistent, world_loose_reversals)
  ∧ GetJournalById 5 "R2" world_loose_reversals = None.
Proof.
  destruct (GetJournalById_reversal_chains "R0" world_loose_reversals) as (H0 & _).
  destruct (GetJournalById_reversal_chains "R1" world_loose_reversals) as (_ & H1 & _).
  destruct (GetJournalById_reversal_chains "R2" world_loose_reversals) as (_ & _ & H2).
  split; [|split].
  - apply (H0 eq_refl 4).
  - apply (H1 (JRec.mk "R1" 1 "dangling" true "R0" 0 1 "alice") eq_refl eq_refl eq_refl 3).
  - apply (H2 (JRec.mk "R2" 2 "circular" true "R2" 0 2 "alice") eq_refl eq_refl eq_refl 5).
Defined.

(** X15: for a reversal whose reversed journal is in the journal table and
    is no reversal itself, [GetJournalById] returns the journal marked as a
    reversal, with the reversed journal loaded by its ID and attached. *)
Theorem GetJournalById_loads_reversed_journal :
  ∀ (journalId : string) (w : World) (r r0 : InMemoryJournalRecords) (fuel : nat),
    InMemoryJournalTable w !! journalId = Some r →
    JRec.reversal r = true →
    InMemoryJournalTable w !! JRec.reversedJournalId r = Some r0 →
    JRec.reversal r0 = false →
    ∃ journal reversed,
      GetJournalById (S (S fuel)) journalId w = Some (inr journal, w)
      ∧ Jn.GetJournalID journal = JRec.journalId r
      ∧ Jn.IsReversal journal = true
      ∧ Jn.GetReversedJournal journal = Some reversed
      ∧ GetJournalById (S fuel) (JRec.reversedJournalId r) w = Some (inr reversed, w)
      ∧ Jn.GetJournalID reversed = JRec.journalId r0
      ∧ Jn.GetReversedJournal reversed = None.
Proof.
  intros journalId w r r0 fuel E Hrev E0 Hrev0.
  rewrite (GetJournalById_reversal _ _ _ _ E Hrev).
  cbn [GetJournalById]. rewrite bind_get, E0, Hrev0.
  unfold bind, ret, get. by eexists _, _.
Qed.

Lemma GetJournalById_loads_reversed_journal_witness :
  ∃ journal reversed,
    GetJournalById 2 "R3" world_loose_reversals = Some (inr journal, world_loose_reversals)
    ∧ Jn.GetJournalID journal = "R3"
    ∧ Jn.IsReversal journal = true
    ∧ Jn.GetReversedJournal journal = Some reversed
    ∧ GetJournalById 1 "R4" world_loose_reversals = Some (inr reversed, world_loose_reversals)
    ∧ Jn.GetJournalID reversed = "R4"
    ∧ Jn.GetReversedJournal reversed = None.
Proof.
  exact (GetJournalById_loads_reversed_journal "R3" world_loose_reversals
           (JRec.mk "R3" 3 "reversal of R4" true "R4" 0 3 "alice")
           (JRec.mk "R4" 4 "plain" false EmptyString 0 4 "alice") 0
           eq_refl eq_refl eq_refl eq_refl).
Defined.

(** ** The order and the content of the listings *)

Lemma stable_insert_sorted {A} (key : A → Z) x l :
  StronglySorted (λ a b, (key a ≤ key b)%Z) l →
  StronglySorted (λ a b, (key a ≤ key b)%Z)
    (stable_insert (λ a b, (key a <? key b)%Z) x l).
Proof.
  induction 1 as [|y l Hl IH Hy]; simpl; [by repeat constructor|].
  destruct (Z.ltb_spec (key y) (key x)) as [Hlt|Hge].
  - constructor; [done|]. rewrite stable_insert_Permutation.
    constructor; [lia|done].
  - constructor; [by constructor|]. constructor; [done|].
    eapply Forall_impl; [done|]. simpl. intros z Hz. lia.
Qed.

Lemma SliceStable_sorted {A} (key : A → Z) l :
  StronglySorted (λ a b, (key a ≤ key b)%Z)
    (SliceStable (λ a b, (key a <? key b)%Z) l).
Proof.
  induction l as [|x l IH]; simpl; [constructor|]. by apply stable_insert_sorted.
Qed.

Lemma StronglySorted_take_drop {A} (R : relation A) n m l :
  StronglySorted R l → StronglySorted R (take n (drop m l)).
Proof.
  intros Hl. rewrite <- (take_drop m l) in Hl. apply StronglySorted_app_1_r in Hl.
  rewrite <- (take_drop n (drop m l)) in Hl. by apply StronglySorted_app_1_l in Hl.
Qed.

(** [sort.SliceStable] keeps the order of the items with the same key. *)
Lemma stable_insert_filter {A} (key : A → Z) (k : Z) x l :
  StronglySorted (λ a b, (key a ≤ key b)%Z) l →
  filter (λ a, key a = k) (stable_insert (λ a b, (key a <? key b)%Z) x l)
  = filter (λ a, key a = k) (x :: l).
Proof.
  induction 1 as [|y l Hl IH Hy]; simpl; [done|].
  destruct (Z.ltb_spec (key y) (key x)) as [Hlt|Hge]; [|done].
  rewrite !filter_cons, IH, !filter_cons.
  destruct (decide (key y = k)), (decide (key x = k)); try done. lia.
Qed.

Lemma SliceStable_stable {A} (key : A → Z) (k : Z) l :
  filter (λ a, key a = k) (SliceStable (λ a b, (key a <? key b)%Z) l)
  = filter (λ a, key a = k) l.
Proof.
  induction l as [|x l IH]; simpl; [done|].
  rewrite stable_insert_filter by apply SliceStable_sorted.
  by rewrite !filter_cons, IH.
Qed.

Lemma slice_inv {A} (l : list A) lo hi w r w' :
  slice l lo hi w = Some (r, w') →
  w' = w ∧ r = inr (take (Z.to_nat (hi - lo)) (drop (Z.to_nat lo) l)).
Proof. unfold slice. case_match; [|done]. by intros [= <- <-]. Qed.

Lemma list_accounts_page_inv resultSlice request w pageResult accounts w' :
  list_accounts_page resultSlice request w = Some (inr (pageResult, accounts), w') →
  w' = w
  ∧ ∃ n m, accounts =
      account_of_record <$>
        take n (drop m (SliceStable (λ a b, time_Before (ARec.createTime a) (ARec.createTime b))
                                    resultSlice)).
Proof.
  unfold list_accounts_page.
  intros ([] & w1 & -> %readonly_make_check & H)%bind_inr.
  apply bind_inr in H as (window & w2 & [-> [= ->]]%slice_inv & [= _ <- <-]).
  split; [done|]. by eexists _, _.
Qed.

Lemma accounts_page_sorted n m (rs : list InMemoryAccountRecord) :
  accounts_ascending
    (account_of_record <$>
       take n (drop m (SliceStable (λ a b, time_Before (ARec.createTime a) (ARec.createTime b))
                                   rs))).
Proof.
  unfold accounts_ascending.
  apply (StronglySorted_fmap account_of_record
           (λ a b, (ARec.createTime a ≤ ARec.createTime b)%Z)); [by intros a b|].
  apply StronglySorted_take_drop, (SliceStable_sorted ARec.createTime).
Qed.

Lemma accounts_page_elem n m (rs : list InMemoryAccountRecord) (less : _ → _ → bool) a :
  a ∈ account_of_record <$> take n (drop m (SliceStable less rs)) →
  ∃ r, r ∈ rs ∧ a = account_of_record r.
Proof.
  intros (r & -> & Hr)%list_elem_of_fmap. exists r. split; [|done].
  by apply subseteq_take, subseteq_drop, elem_of_SliceStable in Hr.
Qed.

(** X16: whenever [ListAccounts] returns a page, the accounts on it are
    copies of records of the account table, in ascending order of creation
    time, and the world is as before. *)
Theorem ListAccounts_page_content :
  ∀ (request : PageRequest) (w w' : World) (pageResult : PageResult)
    (accounts : list Account),
    ListAccounts request w = Some (inr (pageResult, accounts), w') →
    w' = w
    ∧ accounts_ascending accounts
    ∧ ∀ a, a ∈ accounts → stored_account w a.
Proof.
  intros request w w' pageResult accounts. unfold ListAccounts. rewrite bind_get.
  intros (-> & n & m & ->)%list_accounts_page_inv.
  split; [done|]. split; [apply accounts_page_sorted|].
  intros a (r & [k Hk]%elem_of_range_table & ->)%accounts_page_elem. by exists k, r.
Qed.

Lemma ListAccounts_page_content_witness :
  ∃ pageResult accounts,
    ListAccounts (mkPageRequest 0 5) world_J3 = Some (inr (pageResult, accounts), world_J3)
    ∧ accounts_ascending accounts
    ∧ Ac.GetAccountNumber <$> accounts = ["A1"; "A2"].
Proof.
  assert (H : ∃ pa, ListAccounts (mkPageRequest 0 5) world_J3 = Some (inr pa, world_J3)
                    ∧ Ac.GetAccountNumber <$> pa.2 = ["A1"; "A2"])
    by (vm_compute; eexists; split; reflexivity).
  destruct H as ([pageResult accounts] & H & Hids).
  exists pageResult, accounts. split; [exact H|]. split; [|exact Hids].
  exact (proj1 (proj2 (ListAccounts_page_content _ _ _ _ _ H))).
Defined.

(** X17: whenever [ListAccountByCOA] returns a page, every account on it
    has the COA asked for and is a copy of a record of the account table;
    the page is in ascending order of creation time, and the world is as
    before. *)
Theorem ListAccountByCOA_page_content :
  ∀ (coa : string) (request : PageRequest) (w w' : World) (pageResult : PageResult)
    (accounts : list Account),
    ListAccountByCOA coa request w = Some (inr (pageResult, accounts), w') →
    w' = w
    ∧ accounts_ascending accounts
    ∧ ∀ a, a ∈ accounts → Ac.GetCOA a = coa ∧ stored_account w a.
Proof.
  intros coa request w w' pageResult accounts. unfold ListAccountByCOA. rewrite bind_get.
  intros (-> & n & m & ->)%list_accounts_page_inv.
  split; [done|]. split; [apply accounts_page_sorted|].
  intros a (r & [Hcoa [k Hk]%elem_of_range_table]%list_elem_of_filter & ->)%accounts_page_elem.
  split; [done|]. by exists k, r.
Qed.

Lemma ListAccountByCOA_page_content_witness :
  ∃ pageResult accounts,
    ListAccountByCOA "2.1" (mkPageRequest 0 5) world_J3
    = Some (inr (pageResult, accounts), world_J3)
    ∧ Ac.GetAccountNumber <$> accounts = ["A2"]
    ∧ ∀ a, a ∈ accounts → Ac.GetCOA a = "2.1" ∧ stored_account world_J3 a.
Proof.
  assert (H : ∃ pa, ListAccountByCOA "2.1" (mkPageRequest 0 5) world_J3
                    = Some (inr pa, world_J3)
                    ∧ Ac.GetAccountNumber <$> pa.2 = ["A2"])
    by (vm_compute; eexists; split; reflexivity).
  destruct H as ([pageResult accounts] & H & Hids).
  exists pageResult, accounts. split; [exact H|]. split; [exact Hids|].
  exact (proj2 (proj2 (ListAccountByCOA_page_content _ _ _ _ _ _ H))).
Defined.

Lemma prefix_spec (p s : string) :
  String.prefix p s = true ↔ ∃ post, s = (p +:+ post)%string.
Proof.
  revert s. induction p as [|c p IH]; intros s.
  - split; [|by destruct s]. intros _. by exists s.
  - destruct s as [|d s]; simpl.
    + split; [done|]. by intros [post [=]].
    + destruct (Ascii.ascii_dec c d) as [->|Hne].
      * rewrite IH. split; intros [post Hpost]; exists post.
        -- rewrite Hpost. reflexivity.
        -- by injection Hpost.
      * split; [done|]. intros [post [=]]. done.
Qed.

Lemma strings_Contains_unfold (s substr : string) :
  strings_Contains s substr =
  if String.prefix substr s then true
  else match s with
       | EmptyString => false
       | String _ s' => strings_Contains s' substr
       end.
Proof. by destruct s. Qed.

Lemma strings_Contains_spec (s substr : string) :
  strings_Contains s substr = true
  ↔ ∃ pre post, s = (pre +:+ substr +:+ post)%string.
Proof.
  split.
  - induction s as [|c s IH]; rewrite strings_Contains_unfold.
    + destruct (String.prefix substr EmptyString) eqn:E; [|done].
      intros _. apply prefix_spec in E as [post ->]. by exists EmptyString, post.
    + destruct (String.prefix substr (String c s)) eqn:E.
      * intros _. apply prefix_spec in E as [post Hpost]. by exists EmptyString, post.
      * intros (pre & post & ->)%IH. by exists (String c pre), post.
  - intros (pre & post & ->). induction pre as [|c pre IH];
      rewrite strings_Contains_unfold.
    + assert (String.prefix substr (EmptyString +:+ substr +:+ post) = true) as ->
        by (apply prefix_spec; eauto).
      done.
    + destruct (String.prefix substr _); [done|]. simpl. exact IH.
Qed.

(** X18: whenever [FindAccounts] returns a page, the name of every account
    on it, put in upper case, contains the pattern put in upper case, as
    consecutive characters; the accounts are copies of records of the
    account table, in ascending order of creation time, and the world is as
    before. *)
Theorem FindAccounts_page_content :
  ∀ (strings_ToUpper : string → string) (nameLike : string) (request : PageRequest)
    (w w' : World) (pageResult : PageResult) (accounts : list Account),
    FindAccounts strings_ToUpper nameLike request w
    = Some (inr (pageResult, accounts), w') →
    w' = w
    ∧ accounts_ascending accounts
    ∧ ∀ a, a ∈ accounts →
        stored_account w a
        ∧ ∃ pre post,
            strings_ToUpper (Ac.GetName a)
            = (pre +:+ strings_ToUpper nameLike +:+ post)%string.
Proof.
  intros up nameLike request w w' pageResult accounts. unfold FindAccounts.
  rewrite bind_get. intros (-> & n & m & ->)%list_accounts_page_inv.
  split; [done|]. split; [apply accounts_page_sorted|].
  intros a (r & [Hname [k Hk]%elem_of_range_table]%list_elem_of_filter & ->)%accounts_page_elem.
  split; [by exists k, r|].
  apply strings_Contains_spec. by apply Is_true_true.
Qed.

Lemma FindAccounts_page_content_witness :
  ∃ pageResult accounts,
    FindAccounts (λ s, s) "as" (mkPageRequest 0 5) world_J3
    = Some (inr (pageResult, accounts), world_J3)
    ∧ Ac.GetName <$> accounts = ["Cash"]
    ∧ ∀ a, a ∈ accounts →
        stored_account world_J3 a
        ∧ ∃ pre post, Ac.GetName a = (pre +:+ "as" +:+ post)%string.
Proof.
  assert (H : ∃ pa, FindAccounts (λ s, s) "as" (mkPageRequest 0 5) world_J3
                    = Some (inr pa, world_J3)
                    ∧ Ac.GetName <$> pa.2 = ["Cash"])
    by (vm_compute; eexists; split; reflexivity).
  destruct H as ([pageResult accounts] & H & Hnames).
  exists pageResult, accounts. split; [exact H|]. split; [exact Hnames|].
  exact (proj2 (proj2 (FindAccounts_page_content (λ s, s) _ _ _ _ _ _ H))).
Defined.

(** X19: whatever the time range and the page request,
    [ListTransactionsOnAccount] returns, without an error and leaving the
    world as it is, the whole list of the transactions of the account: a
    transaction is in the list exactly when it is the copy of a record of
    the transaction table with the account number of the account, the list
    has one entry for each such record, and it is in ascending order of
    creation time. *)
Theorem ListTransactionsOnAccount_content :
  ∀ (from until : Time) (account : Account) (request : PageRequest) (w : World),
    ∃ pageResult transactions,
      ListTransactionsOnAccount from until account request w
      = Some (inr (pageResult, transactions), w)
      ∧ transactions_ascending transactions
      ∧ (∀ t, t ∈ transactions ↔
              ∃ k r, InMemoryTransactionTable w !! k = Some r
                     ∧ TRec.accountNumber r = Ac.GetAccountNumber account
                     ∧ t = transaction_of_record r)
      ∧ length transactions
        = length (filter (λ kr, TRec.accountNumber kr.2 = Ac.GetAccountNumber account)
                         (map_to_list (InMemoryTransactionTable w))).
Proof.
  intros from until account request w. eexists _, _.
  split; [apply ListTransactionsOnAccount_eq|]. split; [|split].
  - unfold transactions_ascending, transactions_on.
    apply (StronglySorted_fmap transaction_of_record
             (λ a b, (TRec.createTime a ≤ TRec.createTime b)%Z)); [by intros a b|].
    apply (SliceStable_sorted TRec.createTime).
  - intros t. unfold transactions_on. rewrite list_elem_of_fmap. split.
    + intros (r & -> & Hr). apply elem_of_SliceStable, list_elem_of_filter in Hr
        as [Hacc [k Hk]%elem_of_range_table]. by exists k, r.
    + intros (k & r & Hk & Hacc & ->). exists r. split; [done|].
      apply elem_of_SliceStable, list_elem_of_filter. split; [done|].
      apply elem_of_range_table. eauto.
  - unfold transactions_on, range_table.
    rewrite length_fmap, length_SliceStable.
    induction (map_to_list (InMemoryTransactionTable w)) as [|[k r] l IH]; [done|].
    rewrite fmap_cons, !filter_cons. simpl.
    destruct (decide (TRec.accountNumber r = Ac.GetAccountNumber account)); simpl;
      by rewrite IH.
Qed.

Lemma ListJournals_inv fuel from until request w pageResult journals w' :
  journal_table_wf w →
  ListJournals (S fuel) from until request w = Some (inr (pageResult, journals), w') →
  w' = w
  ∧ ∃ n m, journals = journal_view w <$> take n (drop m (journals_between from until w)).
Proof.
  intros Hwf. unfold ListJournals. rewrite bind_get.
  intros ([] & w1 & -> %readonly_make_check & H)%bind_inr.
  apply bind_inr in H as (window & w2 & [-> [= ->]]%slice_inv & H).
  apply bind_inr in H as (js & w3 & Hcollect & [= _ <- <-]).
  rewrite collect_GetJournalById in Hcollect; [|done|].
  - injection Hcollect as <- <-. split; [done|]. by eexists _, _.
  - intros r Hr%subseteq_take%subseteq_drop.
    apply elem_of_SliceStable, list_elem_of_filter in Hr. tauto.
Qed.

(** X20: in a reachable world, whenever [ListJournals] returns a page,
    every journal on it has its journaling time strictly after [from] and
    strictly before [until], a journal dated [from] or [until] itself is
    left out; each is the copy of a journal record of the table, none is a
    reversal, and the page is in ascending order of journaling time. *)
Theorem ListJournals_page_content :
  ∀ (fuel : nat) (from until : Time) (request : PageRequest) (w w' : World)
    (pageResult : PageResult) (journals : list Journal),
    reachable w →
    ListJournals (S fuel) from until request w = Some (inr (pageResult, journals), w') →
    w' = w
    ∧ journals_ascending journals
    ∧ ∀ j, j ∈ journals →
        (from < Jn.GetJournalingTime j < until)%Z
        ∧ Jn.IsReversal j = false
        ∧ Jn.GetReversedJournal j = None
        ∧ ∃ r, InMemoryJournalTable w !! Jn.GetJournalID j = Some r
               ∧ Jn.GetJournalingTime j = JRec.journalingTime r
               ∧ Jn.GetDescription j = JRec.description r
               ∧ Jn.GetAmount j = JRec.amount r
               ∧ Jn.GetCreateBy j = JRec.createBy r.
Proof.
  intros fuel from until request w w' pageResult journals Hw%reachable_journal_table_wf.
  intros (-> & n & m & ->)%ListJournals_inv; [|done].
  split; [done|]. split.
  - unfold journals_ascending, journals_between.
    apply (StronglySorted_fmap (journal_view w)
             (λ a b, (JRec.journalingTime a ≤ JRec.journalingTime b)%Z)); [by intros a b|].
    apply StronglySorted_take_drop, (SliceStable_sorted JRec.journalingTime).
  - intros j (r & -> & Hr%subseteq_take%subseteq_drop)%list_elem_of_fmap.
    unfold journals_between in Hr.
    apply elem_of_SliceStable, list_elem_of_filter in Hr as [Htime [k Hk]%elem_of_range_table].
    destruct (Hw _ _ Hk) as [<- Hrev]. simpl.
    apply andb_prop_elim in Htime as [Hafter%Is_true_true Hbefore%Is_true_true].
    unfold time_After, time_Before in *. apply Z.ltb_lt in Hafter, Hbefore.
    split; [lia|]. split; [done|]. split; [done|]. by exists r.
Qed.

Lemma ListJournals_page_content_witness :
  ∃ pageResult journals,
    ListJournals 1 4 12 (mkPageRequest 0 5) world_J3
    = Some (inr (pageResult, journals), world_J3)
    ∧ journals = []
    ∧ JRec.journalingTime <$> InMemoryJournalTable world_J3 !! "J1" = Some 4%Z
    ∧ JRec.journalingTime <$> InMemoryJournalTable world_J3 !! "J3" = Some 12%Z
    ∧ journals_ascending journals.
Proof.
  assert (H : ∃ pa, ListJournals 1 4 12 (mkPageRequest 0 5) world_J3
                    = Some (inr pa, world_J3) ∧ pa.2 = [])
    by (vm_compute; eexists; split; reflexivity).
  destruct H as ([pageResult journals] & H & Hnil).
  exists pageResult, journals. split; [exact H|]. split; [exact Hnil|].
  do 2 (split; [vm_compute; reflexivity|]).
  exact (proj1 (proj2
    (ListJournals_page_content 0 4 12 _ _ _ _ _ world_J3_reachable H))).
Defined.

(** ** Accounts stay, balances add up *)

Lemma run_keeps_accounts op w r w' k :
  run op w = Some (r, w') →
  is_Some (InMemoryAccountTable w !! k) → is_Some (InMemoryAccountTable w' !! k).
Proof.
  pose proof (readonly_query op) as Hq.
  destruct op; try (by intros ->%Hq); simpl.
  - destruct r as [e|[]].
    + by intros ->%PersistJournal_fail_closed.
    + destruct journalToPersist as [j|]; [|done].
      intros (_ & _ & HA & HA' & _)%PersistJournal_success Hk.
      destruct (decide (k ∈ Tx.GetAccountNumber <$> Jn.GetTransactions j))
        as [(trx & -> & Htrx)%list_elem_of_fmap|Hnin].
      * destruct (HA' _ Htrx) as (acc & t & _ & ->). eauto.
      * by rewrite HA.
  - rewrite PersistAccount_eq. repeat case_match; intros [= <- <-]; try done.
    simpl. intros Hk. destruct (decide (Ac.GetAccountNumber AccountToPersist = k)) as [<-|Hne].
    + rewrite lookup_insert_eq. eauto.
    + by rewrite lookup_insert_ne.
  - rewrite UpdateAccount_eq. repeat case_match; intros [= <- <-]; try done.
    simpl. intros Hk. destruct (decide (Ac.GetAccountNumber AccountToUpdate = k)) as [<-|Hne].
    + rewrite lookup_insert_eq. eauto.
    + by rewrite lookup_insert_ne.
Qed.

(** X21: no operation of the managers removes an account: an account
    number that is in the account table stays in it through every sequence
    of operations, and [GetAccountById] keeps returning an account for
    it. *)
Theorem accounts_are_never_removed :
  ∀ (ops : list Op) (w w' : World) (id : string),
    run_all ops w = Some w' →
    is_Some (InMemoryAccountTable w !! id) →
    is_Some (InMemoryAccountTable w' !! id)
    ∧ ∃ a, GetAccountById id w' = Some (inr a, w').
Proof.
  intros ops w w' id Hrun Hid.
  assert (H : is_Some (InMemoryAccountTable w' !! id)).
  { revert w Hrun Hid. induction ops as [|op ops IH]; intros w; simpl.
    - by intros [= <-].
    - destruct (run op w) as [[r w1]|] eqn:E; [|done]. intros Hrest Hid.
      eapply IH; [done|]. by eapply run_keeps_accounts. }
  split; [done|]. destruct H as [r Hr].
  unfold GetAccountById. rewrite bind_get, Hr. eauto.
Qed.

Lemma accounts_are_never_removed_witness :
  is_Some (InMemoryAccountTable world_A1_edited !! "A1")
  ∧ ∃ a, GetAccountById "A1" world_A1_edited = Some (inr a, world_A1_edited).
Proof.
  apply (accounts_are_never_removed
           [OpPersistJournal (Some journal_J1); OpUpdateAccount account_A1_edited]
           world_accounts world_A1_edited "A1").
  - vm_compute. reflexivity.
  - vm_compute. eexists. reflexivity.
Defined.

Lemma wrap64_add_l x a : wrap64 (wrap64 x + a) = wrap64 (x + a).
Proof.
  unfold wrap64. f_equal.
  replace ((x + 2 ^ 63) `mod` 2 ^ 64 - 2 ^ 63 + a + 2 ^ 63)%Z
    with ((x + 2 ^ 63) `mod` 2 ^ 64 + a)%Z by lia.
  rewrite Zplus_mod_idemp_l. f_equal. lia.
Qed.

Lemma wrap64_sub_l x a : wrap64 (wrap64 x - a) = wrap64 (x - a).
Proof. replace (wrap64 x - a)%Z with (wrap64 x + - a)%Z by lia. apply wrap64_add_l. Qed.

Lemma spec_newBal_wrap d b x a :
  wrap64 (spec_newBal d b (wrap64 x) a) = wrap64 (spec_newBal d b x a).
Proof.
  unfold spec_newBal. case_decide; [apply wrap64_add_l|apply wrap64_sub_l].
Qed.

(** X22: two journals persisted one after the other, each with a
    transaction on the same account: the balance of the account after the
    second is the balance before the first with both amounts applied, each
    added or subtracted by the rule of its own direction against the base
    direction of the account, the whole reduced to [int64] once. *)
Theorem PersistJournal_twice_on_account :
  ∀ (j1 j2 : Journal) (w w1 w2 : World) (trx1 trx2 : Transaction)
    (acc : InMemoryAccountRecord),
    PersistJournal (Some j1) w = Some (inr tt, w1) →
    PersistJournal (Some j2) w1 = Some (inr tt, w2) →
    trx1 ∈ Jn.GetTransactions j1 → trx2 ∈ Jn.GetTransactions j2 →
    Tx.GetAccountNumber trx2 = Tx.GetAccountNumber trx1 →
    InMemoryAccountTable w !! Tx.GetAccountNumber trx1 = Some acc →
    ∃ acc2,
      InMemoryAccountTable w2 !! Tx.GetAccountNumber trx1 = Some acc2
      ∧ ARec.balance acc2
        = wrap64 (spec_newBal (Tx.GetTransactionType trx2) (ARec.baseTransactionType acc)
                    (spec_newBal (Tx.GetTransactionType trx1) (ARec.baseTransactionType acc)
                                 (ARec.balance acc) (Tx.GetAmount trx1))
                    (Tx.GetAmount trx2)).
Proof.
  intros j1 j2 w w1 w2 trx1 trx2 acc.
  intros (_ & _ & _ & HA1 & _)%PersistJournal_success.
  intros (_ & _ & _ & HA2 & _)%PersistJournal_success Htrx1 Htrx2 Hsame Hacc.
  destruct (HA1 _ Htrx1) as (acc0 & t1 & Hacc0 & Hacc1).
  rewrite Hacc in Hacc0. injection Hacc0 as <-.
  destruct (HA2 _ Htrx2) as (acc1 & t2 & Hacc1' & Hacc2). rewrite Hsame in *.
  rewrite Hacc1 in Hacc1'. injection Hacc1' as <-.
  eexists. split; [done|]. cbn [saved_account ARec.balance ARec.baseTransactionType].
  by rewrite !newBalance_spec, spec_newBal_wrap.
Qed.

Lemma PersistJournal_twice_on_account_witness :
  ∃ acc2,
    InMemoryAccountTable world_J3 !! "A1" = Some acc2
    ∧ ARec.balance acc2
      = wrap64 (spec_newBal DEBIT DEBIT (spec_newBal DEBIT DEBIT 0 100) 40).
Proof.
  apply (PersistJournal_twice_on_account journal_J1 journal_J3
           world_accounts world_J1 world_J3
           (Tx.mk "T1" 0 "A1" "J1" "cash in" DEBIT 100 0 0 "alice")
           (Tx.mk "T5" 0 "A1" "J3" "cash in" DEBIT 40 0 0 "alice")
           (ARec.mk "IDR" "A1" "Cash" "Cash at hand" DEBIT 0 "1.1" 0 "alice" 1 "alice")).
  - vm_compute. reflexivity.
  - vm_compute. reflexivity.
  - apply elem_of_cons. left. reflexivity.
  - apply elem_of_cons. left. reflexivity.
  - reflexivity.
  - vm_compute. reflexivity.
Defined.

(** ** The totals of a journal *)

Lemma total_fold (transactionType : TransactionType) (l : list Transaction) :
  ∀ z,
    fold_left (λ total t,
      if (Tx.GetTransactionType t =? transactionType)%Z
      then add64 total (Tx.GetAmount t) else total) l (wrap64 z)
    = wrap64 (z + amounts_of transactionType l).
Proof.
  unfold amounts_of.
  induction l as [|x l IH]; intros z; simpl; [f_equal; lia|].
  rewrite filter_cons. destruct (Z.eqb_spec (Tx.GetTransactionType x) transactionType).
  - rewrite decide_True by done. unfold add64. rewrite wrap64_add_l, IH.
    rewrite fmap_cons. cbn [foldr]. f_equal. lia.
  - rewrite decide_False by done. apply IH.
Qed.

(** X23: [GetTotalDebit] and [GetTotalCredit] are the sums over the
    integers of the amounts of the DEBIT and of the CREDIT transactions of
    the journal, reduced to [int64] once; transactions of any other type
    count for neither, and the order of the transactions does not matter. *)
Theorem journal_totals :
  ∀ j : Journal,
    GetTotalDebit j = wrap64 (amounts_of DEBIT (Jn.GetTransactions j))
    ∧ GetTotalCredit j = wrap64 (amounts_of CREDIT (Jn.GetTransactions j))
    ∧ ∀ j', Jn.GetTransactions j' ≡ₚ Jn.GetTransactions j →
            GetTotalDebit j' = GetTotalDebit j ∧ GetTotalCredit j' = GetTotalCredit j.
Proof.
  assert (H : ∀ j, GetTotalDebit j = wrap64 (amounts_of DEBIT (Jn.GetTransactions j))
                   ∧ GetTotalCredit j = wrap64 (amounts_of CREDIT (Jn.GetTransactions j))).
  { intros j. unfold GetTotalDebit, GetTotalCredit. split.
    - pose proof (total_fold DEBIT (Jn.GetTransactions j) 0) as Ht.
      change (wrap64 0) with 0%Z in Ht. by rewrite Z.add_0_l in Ht.
    - pose proof (total_fold CREDIT (Jn.GetTransactions j) 0) as Ht.
      change (wrap64 0) with 0%Z in Ht. by rewrite Z.add_0_l in Ht. }
  intros j. split; [apply H|]. split; [apply H|].
  intros j' Hperm. destruct (H j) as [-> ->], (H j') as [-> ->].
  unfold amounts_of. split; f_equal.
  - assert (Hp : Tx.GetAmount <$> filter (λ t, Tx.GetTransactionType t = DEBIT)
                                         (Jn.GetTransactions j')
               ≡ₚ Tx.GetAmount <$> filter (λ t, Tx.GetTransactionType t = DEBIT)
                                          (Jn.GetTransactions j)) by by rewrite Hperm.
    induction Hp; simpl; lia.
  - assert (Hp : Tx.GetAmount <$> filter (λ t, Tx.GetTransactionType t = CREDIT)
                                         (Jn.GetTransactions j')
               ≡ₚ Tx.GetAmount <$> filter (λ t, Tx.GetTransactionType t = CREDIT)
                                          (Jn.GetTransactions j)) by by rewrite Hperm.
    induction Hp; simpl; lia.
Qed.

(** ** What an error of PersistJournal tells *)

Lemma dup_in_true (l : list Transaction) :
  dup_in ∅ l = true → ¬ NoDup (Tx.GetAccountNumber <$> l).
Proof.
  intros Hdup Hnd. rewrite dup_in_NoDup in Hdup; [done|done|by intros a _].
Qed.

(** X24: the error [PersistJournal] returns for a journal is a true
    report: the missing-ID, no-transaction and missing-author errors come
    for a journal without ID, without transactions, without creator; the
    already-persisted errors for a journal ID or a transaction ID that is in
    its table; the not-balanced error for totals that differ; the duplicate
    error for two transactions on one account; the not-persisted error for
    an account that is not in the table; the mixed-currency error for
    accounts of different currencies; the not-found error for a journal that
    names a journal it reverses. No other error is returned, the
    double-reversal error in particular. *)
Theorem PersistJournal_errors_are_truthful :
  ∀ (j : Journal) (w w' : World) (e : error),
    PersistJournal (Some j) w = Some (inl e, w') →
    match e with
    | ErrJournalMissingId => Jn.GetJournalID j = EmptyString
    | ErrJournalNoTransaction => Jn.GetTransactions j = []
    | ErrJournalMissingAuthor => Jn.GetCreateBy j = EmptyString
    | ErrJournalAlreadyPersisted => is_Some (InMemoryJournalTable w !! Jn.GetJournalID j)
    | ErrJournalTransactionMissingID =>
        ∃ trx, trx ∈ Jn.GetTransactions j ∧ Tx.GetTransactionID trx = EmptyString
    | ErrJournalTransactionAlreadyPersisted =>
        ∃ trx, trx ∈ Jn.GetTransactions j
               ∧ is_Some (InMemoryTransactionTable w !! Tx.GetTransactionID trx)
    | ErrJournalNotBalance => GetTotalDebit j ≠ GetTotalCredit j
    | ErrJournalTransactionAccountDuplicate =>
        ¬ NoDup (Tx.GetAccountNumber <$> Jn.GetTransactions j)
    | ErrJournalTransactionAccountNotPersist =>
        ∃ trx, trx ∈ Jn.GetTransactions j
               ∧ InMemoryAccountTable w !! Tx.GetAccountNumber trx = None
    | ErrJournalTransactionMixCurrency => ¬ same_currency j w
    | ErrJournalIdNotFound => is_Some (Jn.GetReversedJournal j)
    | _ => False
    end.
Proof.
  intros j w w' e. rewrite PersistJournal_eq.
  destruct (validate j w) as [e'|] eqn:Ev;
    [intros [= -> _]|by intros ?%no_throw_write_phase].
  unfold validate in Ev.
  destruct (len0 (Jn.GetJournalID j)) eqn:E1.
  { injection Ev as <-. by destruct (Jn.GetJournalID j). }
  destruct (Nat.eqb _ 0) eqn:E2.
  { injection Ev as <-. apply Nat.eqb_eq in E2. by destruct (Jn.GetTransactions j). }
  destruct (len0 (Jn.GetCreateBy j)) eqn:E3.
  { injection Ev as <-. by destruct (Jn.GetCreateBy j). }
  destruct (exist (InMemoryJournalTable w) _) eqn:E4.
  { injection Ev as <-. by apply exist_true. }
  destruct (existsb _ _) eqn:E5 in Ev.
  { injection Ev as <-. apply existsb_exists in E5 as (trx & Htrx%list_elem_of_In & Hlen).
    exists trx. split; [done|]. by destruct (Tx.GetTransactionID trx). }
  destruct (existsb _ _) eqn:E6 in Ev.
  { injection Ev as <-. apply existsb_exists in E6 as (trx & Htrx%list_elem_of_In & Hex).
    exists trx. split; [done|]. by apply exist_true. }
  destruct (negb _) eqn:E7 in Ev.
  { injection Ev as <-. rewrite sum_loop_eq in E7. cbn [fst snd] in E7.
    apply negb_true_iff, Z.eqb_neq in E7. congruence. }
  destruct (dup_in _ _) eqn:E8.
  { injection Ev as <-. by apply dup_in_true. }
  destruct (existsb _ _) eqn:E9 in Ev.
  { injection Ev as <-. apply existsb_exists in E9 as (trx & Htrx%list_elem_of_In & Hex).
    exists trx. split; [done|]. by apply negb_true_iff, exist_false in Hex. }
  destruct (mix_in _ _ _ _) eqn:E10.
  { injection Ev as <-. intros Hcur. apply mix_in_same_currency in Hcur; [congruence|].
    intros trx Htrx. eapply existsb_false in E9; [|done].
    by apply negb_false_iff, exist_true in E9. }
  destruct (Jn.GetReversedJournal j) eqn:E11; [|done].
  injection Ev as <-. eauto.
Qed.

Lemma PersistJournal_errors_are_truthful_witness :
  PersistJournal (Some journal_J4) world_J1
  = Some (inl ErrJournalTransactionAlreadyPersisted, world_J1)
  ∧ ∃ trx, trx ∈ Jn.GetTransactions journal_J4
           ∧ is_Some (InMemoryTransactionTable world_J1 !! Tx.GetTransactionID trx).
Proof.
  assert (H : PersistJournal (Some journal_J4) world_J1
              = Some (inl ErrJournalTransactionAlreadyPersisted, world_J1))
    by (vm_compute; reflexivity).
  split; [exact H|].
  exact (PersistJournal_errors_are_truthful journal_J4 world_J1 world_J1 _ H).
Defined.
